(** * mkenv: a shallow embedding of [mkenv.py] and its verified properties

    The script creates a pyenv virtualenv: it sorts and filters the installed
    interpreter versions, optionally asks the user to pick one from a numbered
    menu, locates requirements files, and drives four kinds of subprocess
    call.

    Conventions of the embedding.
    - A Python [str] is a [string]; a character is one code point below 256
      (Latin-1), so the character classes below are the restrictions of the
      Unicode ones to that range.
    - A Python [int] is a [Z].  The limit of recent interpreters on the
      number of digits that [int] converts (4300) is left out: the names of
      directory entries are far shorter.
    - A computation that can raise is a value of [res]; the interactive and
      subprocess code runs in the state-and-exception monad [M] over the
      record [world].
    - [logger.debug] and [logger.info] calls are not modelled; [print],
      [input], [warnings.warn] and the two custom log levels are recorded as
      events.
    - A subprocess acts on the outside state only.  The script passes it no
      [stdin], so a child that reads would take lines of the script's own
      standard input; such a child is outside the model, in which the input
      that a subprocess call leaves is the input that it found. *)

From Stdlib Require Import ZArith List String Ascii Bool Lia.
From Stdlib Require Import Sorting.Sorted Sorting.Permutation.
Import ListNotations.

Local Open Scope string_scope.
Local Open Scope Z_scope.

(** ** Exceptions and results *)

Inductive exn : Type :=
| IndexError
| KeyError
| TypeError
| EOFError
| ReError
| ValueError (msg : string)
| RuntimeError (msg : string)
| CalledProcessError (returncode : Z) (cmd : list string)
| SystemExit (code : Z).

Inductive res (A : Type) : Type :=
| Ok (a : A)
| Raise (e : exn).

Arguments Ok {A} a.
Arguments Raise {A} e.

Definition rbind {A B : Type} (r : res A) (k : A -> res B) : res B :=
  match r with
  | Ok a => k a
  | Raise e => Raise e
  end.

Declare Scope res_scope.
Delimit Scope res_scope with res.
Notation "x <- r ;; k" := (rbind r (fun x => k))
  (at level 61, r at next level, right associativity) : res_scope.

Fixpoint rmap {A B : Type} (f : A -> res B) (l : list A) : res (list B) :=
  match l with
  | [] => Ok []
  | x :: l' => (y <- f x ;; ys <- rmap f l' ;; Ok (y :: ys))%res
  end.

(** ** Python string primitives *)

Module PyStr.

Definition code (c : ascii) : Z := Z.of_N (N_of_ascii c).

Fixpoint char_in (c : ascii) (s : string) : bool :=
  match s with
  | EmptyString => false
  | String d s' => Ascii.eqb c d || char_in c s'
  end.

(** [string.digits] *)
Definition digits : string := "0123456789".

Definition is_digit (c : ascii) : bool := char_in c digits.

Definition digit_val (c : ascii) : Z := code c - 48.

(** [str.isspace] on one character: TAB..CR, FS..US, space, NEL, NBSP. *)
Definition is_space (c : ascii) : bool :=
  let n := code c in
  ((9 <=? n) && (n <=? 13)) || ((28 <=? n) && (n <=? 32))
  || (n =? 133) || (n =? 160).

Fixpoint lstrip_by (space : ascii -> bool) (s : string) : string :=
  match s with
  | EmptyString => EmptyString
  | String c s' => if space c then lstrip_by space s' else s
  end.

Fixpoint rstrip_by (space : ascii -> bool) (s : string) : string :=
  match s with
  | EmptyString => EmptyString
  | String c s' =>
      match rstrip_by space s' with
      | EmptyString => if space c then EmptyString else String c EmptyString
      | t => String c t
      end
  end.

(** [s.strip()] *)
Definition strip (s : string) : string :=
  rstrip_by is_space (lstrip_by is_space s).

Definition lower_char (c : ascii) : ascii :=
  let n := code c in
  if ((65 <=? n) && (n <=? 90))
     || ((192 <=? n) && (n <=? 222) && negb (n =? 215))
  then ascii_of_N (Z.to_N (n + 32)) else c.

(** [s.lower()] *)
Fixpoint lower (s : string) : string :=
  match s with
  | EmptyString => EmptyString
  | String c s' => String (lower_char c) (lower s')
  end.

(** [s.startswith(p)] *)
Fixpoint startswith (s p : string) {struct p} : bool :=
  match p with
  | EmptyString => true
  | String d p' =>
      match s with
      | EmptyString => false
      | String c s' => Ascii.eqb c d && startswith s' p'
      end
  end.

(** [s.endswith(p)] *)
Definition endswith (s p : string) : bool :=
  let n := String.length s in
  let m := String.length p in
  (m <=? n)%nat && String.eqb (substring (n - m) m s) p.

(** [s.split(sep)] for a one-character separator: never empty. *)
Fixpoint split (sep : ascii) (s : string) : list string :=
  match s with
  | EmptyString => [EmptyString]
  | String c s' =>
      if Ascii.eqb c sep then EmptyString :: split sep s'
      else match split sep s' with
           | [] => [String c EmptyString]
           | t :: ts => String c t :: ts
           end
  end.

(** [s1 < s2] on strings: lexicographic on code points. *)
Definition lt (s1 s2 : string) : bool := String.ltb s1 s2.

(** The digit part of an [int] literal: decimal digits, with single
    underscores allowed between two digits. *)
Fixpoint int_digits (acc : Z) (after_digit : bool) (s : string) : option Z :=
  match s with
  | EmptyString => if after_digit then Some acc else None
  | String c s' =>
      if is_digit c then int_digits (10 * acc + digit_val c) true s'
      else if Ascii.eqb c "_" && after_digit then int_digits acc false s'
           else None
  end.

(** The blanks that [int] skips around a literal: those of [isspace] less
    FS..US. *)
Definition is_int_space (c : ascii) : bool :=
  let n := code c in
  ((9 <=? n) && (n <=? 13)) || (n =? 32) || (n =? 133) || (n =? 160).

(** [int(s)]: [None] stands for [ValueError]. *)
Definition int (s : string) : option Z :=
  match rstrip_by is_int_space (lstrip_by is_int_space s) with
  | String "-" t => option_map Z.opp (int_digits 0 false t)
  | String "+" t => int_digits 0 false t
  | t => int_digits 0 false t
  end.

Definition digit_char (d : Z) : ascii := ascii_of_N (Z.to_N (48 + d)).

Fixpoint pos_digits (fuel : nat) (n : Z) (acc : string) : string :=
  match fuel with
  | O => acc
  | S fuel' =>
      let acc' := String (digit_char (n mod 10)) acc in
      if n <? 10 then acc' else pos_digits fuel' (n / 10) acc'
  end.

(** [str(n)] for an integer. *)
Definition of_Z (n : Z) : string :=
  if n <? 0 then String "-" (pos_digits (S (Z.to_nat (Z.log2 (- n)))) (- n) "")
  else pos_digits (S (Z.to_nat (Z.log2 n))) n "".

(** [s.ljust(width)] *)
Fixpoint spaces (n : nat) : string :=
  match n with
  | O => EmptyString
  | S n' => String " " (spaces n')
  end.

Definition ljust (s : string) (width : nat) : string :=
  s ++ spaces (width - String.length s).

End PyStr.


(** ** The version regex

    [ver_re = (?P<major>\d+)\.(?P<minor>\d+)(\.(?P<patch>\d+))?].  Every
    quantifier is greedy and is followed by a character outside its class, so
    a match attempt at a position is deterministic: the longest digit run, a
    dot, the longest digit run, and then the optional group if a dot and a
    digit follow. *)

Module VerRe.

(** [match.groupdict()] *)
Record groupdict : Type := mkGroups {
  major : string;
  minor : string;
  patch : option string
}.

(** The longest run of digits at the head of [s], and what follows it. *)
Fixpoint span_digits (s : string) : string * string :=
  match s with
  | EmptyString => (EmptyString, EmptyString)
  | String c s' =>
      if PyStr.is_digit c then
        let (d, r) := span_digits s' in (String c d, r)
      else (EmptyString, s)
  end.

(** [ver_re.match(s)]: the groups and the unmatched remainder. *)
Definition match_at (s : string) : option (groupdict * string) :=
  match span_digits s with
  | (EmptyString, _) => None
  | (ma, String "." r1) =>
      match span_digits r1 with
      | (EmptyString, _) => None
      | (mi, r2) =>
          match r2 with
          | String "." r3 =>
              match span_digits r3 with
              | (EmptyString, _) => Some (mkGroups ma mi None, r2)
              | (pa, r4) => Some (mkGroups ma mi (Some pa), r4)
              end
          | _ => Some (mkGroups ma mi None, r2)
          end
      end
  | _ => None
  end.

(** One left-to-right scan cuts the subject into matches and the
    characters between them. *)
Inductive piece : Type :=
| Lit (c : ascii)
| Hit (g : groupdict).

Fixpoint scan_fuel (fuel : nat) (s : string) : list piece :=
  match fuel with
  | O => []
  | S fuel' =>
      match s with
      | EmptyString => []
      | String c s' =>
          match match_at s with
          | Some (g, rest) => Hit g :: scan_fuel fuel' rest
          | None => Lit c :: scan_fuel fuel' s'
          end
      end
  end.

Definition scan (s : string) : list piece := scan_fuel (String.length s) s.

(** [ver_re.finditer(s)] *)
Definition finditer (s : string) : list groupdict :=
  flat_map (fun p => match p with Hit g => [g] | Lit _ => [] end) (scan s).

(** [ver_re.sub("", s)] *)
Definition sub_empty (s : string) : string :=
  string_of_list_ascii
    (flat_map (fun p => match p with Hit _ => [] | Lit c => [c] end) (scan s)).

End VerRe.

(** ** Sort keys and their comparison *)

(** An element of the tuple built by [sort_key]: the group marker, the base
    string, or a negated version triple. *)
Inductive kelem : Type :=
| KInt (z : Z)
| KStr (s : string)
| KTup (a b c : Z).

Definition key : Type := list kelem.

Definition kelem_eqb (x y : kelem) : bool :=
  match x, y with
  | KInt a, KInt b => a =? b
  | KStr s, KStr t => String.eqb s t
  | KTup a b c, KTup a' b' c' => (a =? a') && (b =? b') && (c =? c')
  | _, _ => false
  end.

(** [x < y]; Python raises [TypeError] between [int], [str] and [tuple]. *)
Definition kelem_lt (x y : kelem) : res bool :=
  match x, y with
  | KInt a, KInt b => Ok (a <? b)
  | KStr s, KStr t => Ok (PyStr.lt s t)
  | KTup a b c, KTup a' b' c' =>
      Ok (if negb (a =? a') then a <? a'
          else if negb (b =? b') then b <? b'
          else c <? c')
  | _, _ => Raise TypeError
  end.

(** Tuple comparison: the first pair of unequal elements decides; if there is
    none the shorter tuple is the smaller. *)
Fixpoint key_lt (k1 k2 : key) : res bool :=
  match k1, k2 with
  | [], [] => Ok false
  | [], _ :: _ => Ok true
  | _ :: _, [] => Ok false
  | x :: k1', y :: k2' => if kelem_eqb x y then key_lt k1' k2' else kelem_lt x y
  end.

(** [-int(d)] for a matched group. *)
Definition neg_int (d : string) : res Z :=
  match PyStr.int d with
  | Some z => Ok (- z)
  | None => Raise (ValueError "invalid literal for int() with base 10")
  end.

Definition triple_key (g : VerRe.groupdict) : res kelem :=
  (a <- neg_int (VerRe.major g) ;;
   b <- neg_int (VerRe.minor g) ;;
   c <- match VerRe.patch g with
        | Some p => neg_int p
        | None => Ok (- (-1))
        end ;;
   Ok (KTup a b c))%res.

(** [sort_key(s)]; [s[0]] raises [IndexError] on the empty string. *)
Definition sort_key (s : string) : res key :=
  match s with
  | EmptyString => Raise IndexError
  | String c _ =>
      let head :=
        if PyStr.is_digit c then [KInt 0]
        else [KInt 1; KStr (VerRe.sub_empty s)] in
      (ts <- rmap triple_key (VerRe.finditer s) ;; Ok (head ++ ts)%list)%res
  end.

(** ** [sorted]

    [sorted] is stable.  It is modelled as the stable insertion sort, reading
    the list from its end; whenever [<] is a strict weak order on the
    elements every stable sort returns this list. *)

Section Sorted.

Context {A : Type}.

(** With a comparison that cannot raise. *)
Section Pure.
Variable ltb : A -> A -> bool.

Fixpoint insert (x : A) (l : list A) : list A :=
  match l with
  | [] => [x]
  | y :: l' => if ltb y x then y :: insert x l' else x :: l
  end.

Fixpoint isort (l : list A) : list A :=
  match l with
  | [] => []
  | x :: l' => insert x (isort l')
  end.
End Pure.

(** With a comparison that can raise. *)
Section Raising.
Variable lt : A -> A -> res bool.

Fixpoint rinsert (x : A) (l : list A) : res (list A) :=
  match l with
  | [] => Ok [x]
  | y :: l' =>
      (b <- lt y x ;;
       if b then (r <- rinsert x l' ;; Ok (y :: r)) else Ok (x :: l))%res
  end.

Fixpoint rsort (l : list A) : res (list A) :=
  match l with
  | [] => Ok []
  | x :: l' => (r <- rsort l' ;; rinsert x r)%res
  end.
End Raising.

End Sorted.

(** [sorted(l, key=f)]: the keys are computed first, once per element. *)
Definition sorted_by {A : Type} (f : A -> res key) (l : list A) : res (list A) :=
  (ks <- rmap (fun x => k <- f x ;; Ok (k, x)) l ;;
   r <- rsort (fun p q => key_lt (fst p) (fst q)) ks ;;
   Ok (map snd r))%res.

(** [sorted(l)] on strings, where [<] cannot raise. *)
Definition sorted_str (l : list string) : list string := isort PyStr.lt l.

(** [get_pyenv_versions()], given the names of the entries of the versions
    directory that are not symbolic links, in listing order. *)
Definition get_pyenv_versions (names : list string) : res (list string) :=
  sorted_by sort_key names.

(** ** [filter_versions]

    The filter may be an arbitrary Python regular expression, so the [re]
    engine is a parameter: [re_compile] fails on a malformed pattern and
    [re_search] tells whether the pattern matches somewhere in the subject. *)

Section Filter.

Variable regex : Type.
Variable re_compile : string -> option regex.
Variable re_search : regex -> string -> bool.

(** The generator's two loops: [for v in versions: if test(v): yield v]. *)
Fixpoint yield_if (test : string -> bool) (versions : list string) : list string :=
  match versions with
  | [] => []
  | v :: vs => if test v then v :: yield_if test vs else yield_if test vs
  end.

(** [list(filter_versions(filter_str))], given the directory listing read
    by [get_pyenv_versions]. *)
Definition filter_versions (names : list string) (filter_str : string)
  : res (list string) :=
  (versions <- get_pyenv_versions names ;;
   if PyStr.startswith filter_str "/" then
     let filter_str := substring 1 (String.length filter_str - 1) filter_str in
     match re_compile filter_str with
     | None => Raise ReError
     | Some regex => Ok (yield_if (re_search regex) versions)
     end
   else Ok (yield_if (fun v => PyStr.startswith v filter_str) versions))%res.

End Filter.

(** ** [textwrap.indent] *)

Module TextWrap.

(** Line boundaries of [str.splitlines]: LF, VT, FF, CR, FS, GS, RS, NEL. *)
Definition is_linebreak (c : ascii) : bool :=
  let n := PyStr.code c in
  ((10 <=? n) && (n <=? 13)) || ((28 <=? n) && (n <=? 30)) || (n =? 133).

Definition CR : ascii := ascii_of_nat 13.
Definition LF : ascii := ascii_of_nat 10.

(** [text.splitlines(True)]: the lines with their terminators; CR LF is
    one terminator. *)
Fixpoint splitlines (text : string) : list string :=
  match text with
  | EmptyString => []
  | String c rest =>
      if is_linebreak c then
        match rest with
        | String d rest' =>
            if Ascii.eqb c CR && Ascii.eqb d LF
            then String c (String d EmptyString) :: splitlines rest'
            else String c EmptyString :: splitlines rest
        | EmptyString => [String c EmptyString]
        end
      else
        match splitlines rest with
        | [] => [String c EmptyString]
        | l :: ls => String c l :: ls
        end
  end.

Definition truthy (s : string) : bool :=
  match s with EmptyString => false | _ => true end.

(** [textwrap.indent(text, prefix)]: the prefix goes before every line
    that does not consist of whitespace only. *)
Definition indent (text prefix : string) : string :=
  String.concat ""
    (map (fun line => if truthy (PyStr.strip line) then prefix ++ line else line)
         (splitlines text)).

End TextWrap.

(** ** [os.path.join] and [os.walk] *)

Module OsPath.

(** [os.path.join(a, b)] on POSIX. *)
Definition join (a b : string) : string :=
  if PyStr.startswith b "/" then b
  else if negb (TextWrap.truthy a) || PyStr.endswith a "/" then a ++ b
  else a ++ "/" ++ b.

End OsPath.

(** What [os.scandir] finds in a directory, in listing order.  [File] is any
    entry that is not a directory; [DirLink] is a symbolic link to a
    directory, which [os.walk] lists among the directories and does not
    follow. *)
#[local] Unset Elimination Schemes.

Inductive entry : Type :=
| File (name : string)
| Dir (name : string) (children : list entry)
| DirLink (name : string).

#[local] Set Elimination Schemes.

Definition entry_name (e : entry) : string :=
  match e with
  | File n | Dir n _ | DirLink n => n
  end.

Definition is_dir (e : entry) : bool :=
  match e with
  | File _ => false
  | Dir _ _ | DirLink _ => true
  end.

Definition dir_names (es : list entry) : list string :=
  map entry_name (filter is_dir es).

Definition file_names (es : list entry) : list string :=
  map entry_name (filter (fun e => negb (is_dir e)) es).

Section Walk.

Context {S : Type}.

(** The body of a [for root, dnames, fnames in os.walk(top)] loop: it
    updates the loop's state and leaves [dnames], the very list that
    [os.walk] goes on to iterate over, with a new content. *)
Variable body : string -> list string -> list string -> S -> S * list string.

(** [e] is what lies at path [top].  Top-down: the body runs on the
    directory, then each name left in [dnames] is visited in order; a name
    that is a link, or is no directory, yields nothing. *)
Fixpoint walk_node (top : string) (e : entry) (st : S) {struct e} : S :=
  match e with
  | Dir _ es =>
      let (st1, dnames) := body top (dir_names es) (file_names es) st in
      (fix visit (names : list string) (st : S) {struct names} : S :=
         match names with
         | [] => st
         | d :: names' =>
             visit names'
               ((fix find (l : list entry) {struct l} : S :=
                   match l with
                   | [] => st
                   | e' :: l' =>
                       if String.eqb (entry_name e') d
                       then walk_node (OsPath.join top d) e' st
                       else find l'
                   end) es)
         end) dnames st1
  | File _ | DirLink _ => st
  end.

(** [os.walk(top)] driven to its end, [es] being the content of [top]. *)
Definition os_walk (top : string) (es : list entry) (st : S) : S :=
  walk_node top (Dir top es) st.

End Walk.

(** ** The world: standard input, subprocesses, and what was written *)

Record CompletedProcess : Type := mkCompleted {
  returncode : Z;
  stdout : string;
  stderr : string
}.

Inductive event : Type :=
| Print (text : string)
| Prompt (text : string)
| Warn (text : string)
| LogStdout (text : string)
| LogStderr (text : string)
| Run (cmd : list string) (result : CompletedProcess).

Section Program.

(** The state of everything outside the process, and how [subprocess.run]
    with captured output acts on it. *)
Variable W : Type.
Variable sp_run : list string -> W -> CompletedProcess * W.

(** [str(PYENV_ROOT / "bin" / "pyenv")] and
    [str(PYENV_ROOT / "versions" / name / "bin" / "pip")]. *)
Variable pyenv_path : string.
Variable pip_path_of : string -> string.

(** [re.compile] and [Pattern.search]. *)
Variable regex : Type.
Variable re_compile : string -> option regex.
Variable re_search : regex -> string -> bool.

Record world : Type := mkWorld {
  stdin : list string;
  outside : W;
  events : list event
}.

Definition M (A : Type) : Type := world -> res A * world.

Definition ret {A : Type} (a : A) : M A := fun w => (Ok a, w).

Definition raise {A : Type} (e : exn) : M A := fun w => (Raise e, w).

Definition bind {A B : Type} (m : M A) (k : A -> M B) : M B :=
  fun w =>
    match m w with
    | (Ok a, w') => k a w'
    | (Raise e, w') => (Raise e, w')
    end.

Definition lift {A : Type} (r : res A) : M A := fun w => (r, w).

Definition emit (e : event) : M unit :=
  fun w => (Ok tt, mkWorld (stdin w) (outside w) (events w ++ [e])).

(** [subprocess.run(cmd, capture_output=True, text=True)].  The child is
    taken not to read the standard input that it inherits. *)
Definition run (cmd : list string) : M CompletedProcess :=
  fun w =>
    let (cp, o) := sp_run cmd (outside w) in
    (Ok cp, mkWorld (stdin w) o (events w ++ [Run cmd cp])).

(** The same with [check=True]. *)
Definition run_checked (cmd : list string) : M CompletedProcess :=
  bind (run cmd) (fun cp =>
    if returncode cp =? 0 then ret cp
    else raise (CalledProcessError (returncode cp) cmd)).

Declare Scope m_scope.
Delimit Scope m_scope with M.
Notation "x <- m ;; k" := (bind m (fun x => k))
  (at level 61, m at next level, right associativity) : m_scope.
Notation "m ;; k" := (bind m (fun _ => k))
  (at level 61, right associativity) : m_scope.

(** *** The picker *)

(** The [nargs] argument: an integer or a string. *)
Inductive nargs_t : Type :=
| NInt (n : Z)
| NStr (s : string).

(** What [picker] returns: [QUIT_SIGNAL], [None] (falling off the end of
    the function), one option, or a list of options. *)
Inductive picked : Type :=
| Quit
| PNone
| One (option : string)
| Many (options : list string).

(** [(isinstance(nargs, int) and nargs > 1) or nargs in tuple("+*")] *)
Definition multioption (nargs : nargs_t) : bool :=
  match nargs with
  | NInt n => 1 <? n
  | NStr s => String.eqb s "+" || String.eqb s "*"
  end.

(** [nargs in tuple("?*")] *)
Definition allows_empty (nargs : nargs_t) : bool :=
  match nargs with
  | NInt _ => false
  | NStr s => String.eqb s "?" || String.eqb s "*"
  end.

(** [dict(enumerate(options, start))], in insertion order. *)
Fixpoint enumerate (start : Z) (options : list string) : list (Z * string) :=
  match options with
  | [] => []
  | o :: os => (start, o) :: enumerate (start + 1) os
  end.

(** [opt_dict[n]]; [None] stands for [KeyError]. *)
Fixpoint dict_get (n : Z) (d : list (Z * string)) : option string :=
  match d with
  | [] => None
  | (k, o) :: d' => if k =? n then Some o else dict_get n d'
  end.

(** [max(opt_dict)]: the largest key. *)
Definition dict_max (d : list (Z * string)) : res Z :=
  match d with
  | [] => Raise (ValueError "max() arg is an empty sequence")
  | (k, _) :: d' => Ok (fold_left (fun m p => if m <? fst p then fst p else m) d' k)
  end.

Definition nargs_str (nargs : nargs_t) : string :=
  match nargs with
  | NInt n => PyStr.of_Z n
  | NStr s => s
  end.

(** The last line of the menu. *)
Definition type_line (nargs : nargs_t) : string :=
  (match nargs with
   | NStr "?" => "Type an option or leave empty"
   | NStr "*" => "Type any number of comma-separated options"
   | NStr "+" => "Type one or more comma-separated options"
   | _ => "Type " ++ nargs_str nargs ++ " option"
          ++ (if multioption nargs then "s" else "")
   end) ++ ", and press enter: ".

Definition NL : string := String TextWrap.LF EmptyString.

(** The text shown by [input]. *)
Definition menu (opt_dict : list (Z * string)) (highest_n : Z)
    (prompt sep : string) (nargs : nargs_t) (allow_quit : bool) : string :=
  let n_length := String.length ("  " ++ PyStr.of_Z highest_n ++ sep) in
  let s := prompt ++ NL in
  let s :=
    fold_left
      (fun s p =>
         s ++ PyStr.ljust ("  " ++ PyStr.of_Z (fst p) ++ sep) n_length
           ++ snd p ++ NL)
      opt_dict s in
  let s := if allow_quit then s ++ "q: quit" ++ NL else s in
  s ++ type_line nargs.

(** [responses]: the tokens of a stripped, non-empty response. *)
Definition tokens (multi : bool) (response : string) : list string :=
  if multi then map PyStr.strip (PyStr.split "," response) else [response].

(** ["q" in (r.lower() for r in responses)] *)
Definition has_quit (responses : list string) : bool :=
  existsb (fun r => String.eqb "q" (PyStr.lower r)) responses.

(** The [for r in responses] loop.  Each round looks up [int(response)],
    the whole response, and not the token [r] of that round.  [inl] is the
    list [out] when the loop runs to its [else]; [inr] is the line printed
    before [break]. *)
Fixpoint select (opt_dict : list (Z * string)) (response : string)
    (responses : list string) (out : list string) : list string + string :=
  match responses with
  | [] => inl out
  | r :: rs =>
      match PyStr.int response with
      | None =>
          inr ("Response '" ++ response ++ "' is not a valid command or integer")
      | Some n =>
          match dict_get n opt_dict with
          | None => inr (response ++ " does not correspond to an option")
          | Some o => select opt_dict response rs (out ++ [o])
          end
      end
  end.

(** The [while True] loop, one round per line of standard input; [input]
    raises [EOFError] when there is none left.  The result comes with the
    unread lines and the events of the loop. *)
Fixpoint picker_loop (opt_dict : list (Z * string)) (s : string)
    (multi empty_ok allow_quit : bool) (lines : list string)
    : res picked * list string * list event :=
  match lines with
  | [] => (Raise EOFError, [], [Prompt s])
  | line :: rest =>
      let again (said : list event) :=
        let '(r, unread, evs) :=
          picker_loop opt_dict s multi empty_ok allow_quit rest in
        (r, unread, ((Prompt s :: said) ++ evs)%list) in
      let response := PyStr.strip line in
      if negb (TextWrap.truthy response) then
        if empty_ok then (Ok PNone, rest, [Prompt s])
        else again [Print "No option given"]
      else
        let responses := tokens multi response in
        if allow_quit && has_quit responses then (Ok Quit, rest, [Prompt s])
        else
          match select opt_dict response responses [] with
          | inr said => again [Print said]
          | inl out =>
              if negb multi then
                match out with
                | o :: _ => (Ok (One o), rest, [Prompt s])
                | [] => (Raise IndexError, rest, [Prompt s])
                end
              else (Ok (Many out), rest, [Prompt s])
          end
  end.

(** [picker(options, prompt, sep, nargs, allow_quit)] *)
Definition picker (options : list string) (prompt sep : string)
    (nargs : nargs_t) (allow_quit : bool) : M picked :=
  fun w =>
    let opt_dict := enumerate 1 options in
    match dict_max opt_dict with
    | Raise e => (Raise e, w)
    | Ok highest_n =>
        let s := menu opt_dict highest_n prompt sep nargs allow_quit in
        let '(r, unread, evs) :=
          picker_loop opt_dict s (multioption nargs) (allows_empty nargs)
                      allow_quit (stdin w) in
        (r, mkWorld unread (outside w) (events w ++ evs))
    end.

(** *** Picking a version and requirements files *)

(** [Path.cwd()], captured when the module is loaded. *)
Variable CWD : string.

(** [pick_versions(versions)].  With [nargs=1] the picker returns the quit
    signal or one option ([picker_single_shape]); the last case stands for
    the failure of the first subprocess call on an argument that is no
    string. *)
Definition pick_versions (versions : list string) : M string :=
  (out <- picker versions "Pick python version: " ". " (NInt 1) true ;;
   match out with
   | Quit => raise (SystemExit 0)
   | One v => ret v
   | PNone | Many _ => raise TypeError
   end)%M.

(** The body of the loop over [os.walk(CWD)]: the requirements files of
    the directory join [reqs], in the order of their names, and the
    dot-directories leave [dnames]. *)
Definition requirements_body (root : string) (dnames fnames : list string)
    (reqs : list string) : list string * list string :=
  (fold_left
     (fun reqs fname =>
        if negb (PyStr.startswith fname "requirements")
           || negb (PyStr.endswith fname ".txt")
        then reqs
        else (reqs ++ [OsPath.join root fname])%list)
     (sorted_str fnames) reqs,
   filter (fun d => negb (PyStr.startswith d ".")) dnames).

(** The list [reqs] of [pick_requirements] when its loop ends, [es] being
    the content of the working directory. *)
Definition locate_requirements (es : list entry) : list string :=
  os_walk requirements_body CWD es [].

(** [pick_requirements()] *)
Definition pick_requirements (es : list entry) : M picked :=
  picker (locate_requirements es) "Select which requirements to install: "
         ". " (NStr "*") false.

(** *** [create_environment] *)

Definition status_line (what : string) (rc : Z) : string :=
  what ++ " (status code " ++ PyStr.of_Z rc ++ ")".

Definition creation_error (cp : CompletedProcess) : string :=
  status_line "Could not create pyenv environment" (returncode cp) ++ NL
  ++ TextWrap.indent (stderr cp) "  ".

Definition install_warning (req : string) (cp : CompletedProcess) : string :=
  status_line "Could not install requirements from" (returncode cp)
  ++ ": " ++ req ++ NL ++ TextWrap.indent (stderr cp) "  ".

Definition install_cmd (pip_path req : string) : list string :=
  [pip_path; "install"; "-r"; req].

(** The loop over [requirements_files].  An element is [None] for a [-r]
    given without a path next to other [-r] options; [subprocess.run]
    raises [TypeError] on it. *)
Fixpoint install_all (pip_path : string) (reqs : list (option string))
    : M unit :=
  match reqs with
  | [] => ret tt
  | None :: _ =>
      (emit (Print "Installing requirements from None...") ;;
       raise TypeError)%M
  | Some req :: rest =>
      (emit (Print ("Installing requirements from " ++ req ++ "...")) ;;
       install <- run (install_cmd pip_path req) ;;
       emit (LogStdout (stdout install)) ;;
       (if negb (returncode install =? 0)
        then emit (Warn (install_warning req install))
        else emit (LogStderr (stderr install))) ;;
       install_all pip_path rest)%M
  end.

Definition create_environment (version name : string)
    (requirements_files : option (list (option string))) : M unit :=
  (emit (Print ("Creating environment called '" ++ name
                ++ "' for python version '" ++ version ++ "'...")) ;;
   creation <- run [pyenv_path; "virtualenv"; version; name] ;;
   emit (LogStdout (stdout creation)) ;;
   (if negb (returncode creation =? 0)
    then raise (RuntimeError (creation_error creation))
    else emit (LogStderr (stderr creation))) ;;
   emit (Print "Setting as local version...") ;;
   localise <- run_checked [pyenv_path; "local"; name] ;;
   emit (LogStdout (stdout localise)) ;;
   emit (LogStderr (stderr localise)) ;;
   emit (Print "Updating pip...") ;;
   let pip_path := pip_path_of name in
   update <- run_checked [pip_path; "install"; "-U"; "pip"] ;;
   emit (LogStdout (stdout update)) ;;
   emit (LogStderr (stderr update)) ;;
   match requirements_files with
   | None | Some [] => ret tt
   | Some reqs => install_all pip_path reqs
   end ;;
   emit (Print "Done!"))%M.

(** *** Argument resolution and [main] *)

(** The parsed command line. *)
Record namespace : Type := mkNamespace {
  ns_py_version : string;
  ns_pick : bool;
  ns_name : string;
  ns_requirements : option (list (option string))
}.

Record Arguments : Type := mkArguments {
  py_version : string;
  name : string;
  requirements : option (list (option string))
}.

(** [list(x)] on what the picker returned. *)
Definition list_of_picked (p : picked) : res (list (option string)) :=
  match p with
  | Many os => Ok (map Some os)
  | One o =>
      Ok (map (fun c => Some (String c EmptyString)) (list_ascii_of_string o))
  | Quit | PNone => Raise TypeError
  end.

(** [Arguments.from_parsed(namespace)], given the listing of the versions
    directory and the content of the working directory. *)
Definition from_parsed (names : list string) (es : list entry)
    (ns : namespace) : M Arguments :=
  (matching_versions <-
     lift (filter_versions regex re_compile re_search names (ns_py_version ns)) ;;
   version <-
     (if ns_pick ns then pick_versions matching_versions
      else match matching_versions with
           | v :: _ => ret v
           | [] => raise IndexError
           end) ;;
   reqs <-
     match ns_requirements ns with
     | Some [None] =>
         p <- pick_requirements es ;;
         l <- lift (list_of_picked p) ;;
         ret (Some l)
     | r => ret r
     end ;;
   ret (mkArguments version (ns_name ns) reqs))%M.

(** [main()] after [parse_args] and the logging set-up. *)
Definition main (names : list string) (es : list entry) (ns : namespace)
    : M unit :=
  (args <- from_parsed names es ns ;;
   create_environment (py_version args) (name args) (requirements args))%M.

(** The exit status of the interpreter for an outcome of [main]. *)
Definition exit_status (r : res unit) : Z :=
  match r with
  | Ok _ => 0
  | Raise (SystemExit code) => code
  | Raise _ => 1
  end.

(** The subprocess calls among some events. *)
Definition runs (evs : list event) : list (list string) :=
  flat_map (fun e => match e with Run cmd _ => [cmd] | _ => [] end) evs.

End Program.

Arguments mkWorld {W} stdin outside events.
Arguments stdin {W} w.
Arguments outside {W} w.
Arguments events {W} w.
Arguments ret {W A} a _.
Arguments raise {W A} e _.
Arguments bind {W A B} m k _.
Arguments lift {W A} r _.
Arguments emit {W} e _.
Arguments run {W} sp_run cmd _.
Arguments run_checked {W} sp_run cmd _.
Arguments picker {W} options prompt sep nargs allow_quit _.
Arguments pick_versions {W} versions _.
Arguments pick_requirements {W} CWD es _.
Arguments install_all {W} sp_run pip_path reqs _.
Arguments create_environment {W} sp_run pyenv_path pip_path_of version name
  requirements_files _.
Arguments from_parsed {W regex} re_compile re_search CWD names es ns _.
Arguments main {W} sp_run pyenv_path pip_path_of {regex} re_compile re_search
  CWD names es ns _.

(** ** Vocabulary of the specification *)

(** [embeds s t]: [s] is [t] with some characters left out. *)
Inductive embeds : string -> string -> Prop :=
| embeds_nil : embeds EmptyString EmptyString
| embeds_keep c s t : embeds s t -> embeds (String c s) (String c t)
| embeds_skip c s t : embeds s t -> embeds s (String c t).

(** [subseq l1 l2]: [l1] is [l2] with some elements left out. *)
Inductive subseq {A : Type} : list A -> list A -> Prop :=
| subseq_nil : subseq [] []
| subseq_keep x l1 l2 : subseq l1 l2 -> subseq (x :: l1) (x :: l2)
| subseq_skip x l1 l2 : subseq l1 l2 -> subseq l1 (x :: l2).

(** [before x y l]: some occurrence of [x] in [l] has an occurrence of [y]
    after it. *)
Definition before {A : Type} (x y : A) (l : list A) : Prop :=
  exists l1 l2 l3, l = (l1 ++ x :: l2 ++ y :: l3)%list.

(** The texts of the warnings among some events. *)
Definition warnings (evs : list event) : list string :=
  flat_map (fun e => match e with Warn t => [t] | _ => [] end) evs.

(** The warnings owed for the failed installs among some events. *)
Definition failed_installs (pip_path : string) (evs : list event) : list string :=
  flat_map
    (fun e =>
       match e with
       | Run [p; "install"; "-r"; req] cp =>
           if String.eqb p pip_path && negb (returncode cp =? 0)
           then [install_warning req cp] else []
       | _ => []
       end) evs.

(** *** Orders

    A comparison in the style of [Z.compare] that is a total order. *)
Record total_cmp {A : Type} (cmp : A -> A -> comparison) : Prop := {
  cmp_eq : forall x y, cmp x y = Eq -> x = y;
  cmp_refl : forall x, cmp x x = Eq;
  cmp_antisym : forall x y, cmp y x = CompOpp (cmp x y);
  cmp_trans : forall x y z, cmp x y = Lt -> cmp y z = Lt -> cmp x z = Lt
}.

(** The lexicographic comparison of two lists; a proper prefix is smaller. *)
Fixpoint lex_cmp {A : Type} (cmp : A -> A -> comparison) (l1 l2 : list A)
  : comparison :=
  match l1, l2 with
  | [], [] => Eq
  | [], _ :: _ => Lt
  | _ :: _, [] => Gt
  | x :: l1', y :: l2' =>
      match cmp x y with
      | Eq => lex_cmp cmp l1' l2'
      | c => c
      end
  end.

Definition is_lt (c : comparison) : bool :=
  match c with Lt => true | _ => false end.

(** A total order on key elements that agrees with Python's [<] wherever
    Python compares: integers, then strings, then triples. *)
Definition kelem_rank (x : kelem) : Z :=
  match x with
  | KInt _ => 0
  | KStr _ => 1
  | KTup _ _ _ => 2
  end.

Definition kelem_cmp (x y : kelem) : comparison :=
  match x, y with
  | KInt a, KInt b => a ?= b
  | KStr s, KStr t => String.compare s t
  | KTup a b c, KTup a' b' c' => lex_cmp Z.compare [a; b; c] [a'; b'; c']
  | _, _ => kelem_rank x ?= kelem_rank y
  end.

Definition key_cmp : key -> key -> comparison := lex_cmp kelem_cmp.

(** The key of a string, where [sort_key] returns one. *)
Definition key_of (s : string) : key :=
  match sort_key s with
  | Ok k => k
  | Raise _ => []
  end.

(** [s] comes before [t] in the order of the keys. *)
Definition key_before (s t : string) : bool :=
  is_lt (key_cmp (key_of s) (key_of t)).

(** *** Versions *)

(** The group of a version string: its first character is a digit. *)
Definition leading_digit (s : string) : bool :=
  match s with
  | EmptyString => false
  | String c _ => PyStr.is_digit c
  end.

(** The base of a version string: what is left without the matches. *)
Definition base (s : string) : string := VerRe.sub_empty s.

(** (major, minor, patch), a missing patch being -1. *)
Definition version : Type := (Z * Z * Z)%type.

Definition version_of (g : VerRe.groupdict) : option version :=
  match PyStr.int (VerRe.major g), PyStr.int (VerRe.minor g),
        match VerRe.patch g with
        | Some p => PyStr.int p
        | None => Some (-1)
        end
  with
  | Some a, Some b, Some c => Some (a, b, c)
  | _, _, _ => None
  end.

(** The version read from the first match of the regex. *)
Definition first_version (s : string) : option version :=
  match VerRe.finditer s with
  | g :: _ => version_of g
  | [] => None
  end.

Definition version_lt (v w : version) : Prop :=
  let '(a, b, c) := v in
  let '(a', b', c') := w in
  a < a' \/ (a = a' /\ (b < b' \/ (b = b' /\ c < c'))).

(** A string of decimal digits. *)
Fixpoint all_digits (s : string) : bool :=
  match s with
  | EmptyString => true
  | String c s' => PyStr.is_digit c && all_digits s'
  end.

(** A numeral as the regex matches one: digits, and at least one. *)
Definition numeral (s : string) : Prop := s <> EmptyString /\ all_digits s = true.

(** The groups of a match are numerals. *)
Definition groups_ok (g : VerRe.groupdict) : Prop :=
  numeral (VerRe.major g) /\ numeral (VerRe.minor g)
  /\ match VerRe.patch g with
     | Some p => numeral p
     | None => True
     end.

(** The matches among the pieces of a scan. *)
Definition hits (ps : list VerRe.piece) : list VerRe.groupdict :=
  flat_map (fun p => match p with VerRe.Hit g => [g] | VerRe.Lit _ => [] end) ps.

(** The characters between the matches. *)
Definition lits (ps : list VerRe.piece) : list ascii :=
  flat_map (fun p => match p with VerRe.Hit _ => [] | VerRe.Lit c => [c] end) ps.

Definition is_tup (x : kelem) : Prop :=
  match x with
  | KTup _ _ _ => True
  | _ => False
  end.

(** The part of the key that comes before the version triples. *)
Definition key_head (s : string) : key :=
  if leading_digit s then [KInt 0] else [KInt 1; KStr (base s)].

(** *** Directory trees *)

(** The test of [pick_requirements] on a file name. *)
Definition is_requirements (fname : string) : bool :=
  PyStr.startswith fname "requirements" && PyStr.endswith fname ".txt".

Definition dot_name (d : string) : bool := PyStr.startswith d ".".

(** The requirements files of one directory, in the order of their names. *)
Definition own_requirements (top : string) (es : list entry) : list string :=
  map (OsPath.join top) (filter is_requirements (sorted_str (file_names es))).

(** The subdirectories the walk goes into, in listing order: the real
    directories whose name does not start with a dot. *)
Definition walked (es : list entry) : list (string * list entry) :=
  flat_map
    (fun e =>
       match e with
       | Dir n ch => if dot_name n then [] else [(n, ch)]
       | File _ | DirLink _ => []
       end) es.

(** [reach top es d ds]: from the directory [top] of content [es], the
    directory [d] of content [ds] is reached through real directories
    whose names do not start with a dot. *)
Inductive reach (top : string) (es : list entry)
  : string -> list entry -> Prop :=
| reach_top : reach top es top es
| reach_sub d ds n ch :
    reach top es d ds ->
    In (Dir n ch) ds ->
    dot_name n = false ->
    reach top es (OsPath.join d n) ch.

Fixpoint nodupb (l : list string) : bool :=
  match l with
  | [] => true
  | x :: l' => negb (existsb (String.eqb x) l') && nodupb l'
  end.

(** A directory tree as a file system holds it: within a directory no two
    entries have the same name. *)
Fixpoint wf_entry (e : entry) : bool :=
  match e with
  | Dir _ es => nodupb (map entry_name es) && forallb wf_entry es
  | File _ | DirLink _ => true
  end.

Definition wf_dir (es : list entry) : bool :=
  nodupb (map entry_name es) && forallb wf_entry es.

(** The entry that a name denotes in a directory. *)
Definition find_entry (d : string) (es : list entry) : option entry :=
  find (fun e => String.eqb (entry_name e) d) es.

(** One step of the walk below a directory: the visit of the name [d]. *)
Definition visit_step {S : Type}
    (body : string -> list string -> list string -> S -> S * list string)
    (top : string) (es : list entry) (st : S) (d : string) : S :=
  match find_entry d es with
  | Some e' => walk_node body (OsPath.join top d) e' st
  | None => st
  end.

(** Induction on a directory tree. *)
Fixpoint entry_tree_ind (P : entry -> Prop)
    (HF : forall n, P (File n)) (HL : forall n, P (DirLink n))
    (HD : forall n es, Forall P es -> P (Dir n es)) (e : entry) : P e :=
  match e with
  | File n => HF n
  | DirLink n => HL n
  | Dir n es =>
      HD n es
        ((fix go (l : list entry) : Forall P l :=
            match l with
            | [] => Forall_nil P
            | e' :: l' => Forall_cons e' (entry_tree_ind P HF HL HD e') (go l')
            end) es)
  end.

(** ** Sample inputs *)

Module Sample.

Definition pyenv : string := "/opt/pyenv/bin/pyenv".

Definition pip_of (name : string) : string :=
  "/opt/pyenv/versions/" ++ name ++ "/bin/pip".

(** An outside world that counts the calls and fails each of them. *)
Definition run_failing (cmd : list string) (n : nat) : CompletedProcess * nat :=
  (mkCompleted 2 "" "pyenv: version not installed", S n).

(** One in which only the install of [bad.txt] fails. *)
Definition run_flaky (cmd : list string) (n : nat) : CompletedProcess * nat :=
  (match cmd with
   | [_; "install"; "-r"; "bad.txt"] => mkCompleted 1 "" "No matching distribution"
   | _ => mkCompleted 0 "done" ""
   end, S n).

(** A pattern engine for patterns without special characters: the pattern
    is searched as it is written. *)
Definition literal_compile (pattern : string) : option string := Some pattern.

Definition literal_search (pattern subject : string) : bool :=
  match index 0 pattern subject with
  | Some _ => true
  | None => false
  end.

Definition start (lines : list string) : world nat := mkWorld lines O [].

Definition installed : list string := ["3.9.1"; "pypy3.9-7.3.9"; "3.10.2"].

Definition project : list entry :=
  [ File "requirements.txt";
    File "setup.py";
    Dir ".git" [File "requirements-hook.txt"];
    DirLink "vendor";
    Dir "docs" [File "requirements-docs.txt"; File "index.rst";
                Dir "api" [File "requirements.txt"]];
    File "requirements-dev.txt" ].

Definition bare : list entry :=
  [ File "README.md"; Dir ".git" [File "requirements.txt"] ].

End Sample.

(** ** Logging levels

    [add_log_level] edits three tables of the [logging] module: the
    attributes of the module, the attributes of the logger class, and the
    names of the level numbers.  What an attribute holds is a level number,
    one of the two functions that [add_log_level] defines, or something
    else. *)

Inductive attr : Type :=
| ALevel (level_num : Z)
| ALogToRoot (level_num : Z)
| ALogForLevel (level_num : Z)
| AOther.

Record logging_module : Type := mkLogging {
  module_attrs : list (string * attr);
  logger_attrs : list (string * attr);
  level_to_name : list (Z * string)
}.

(** [getattr(obj, name)], [None] when [hasattr(obj, name)] is false. *)
Fixpoint getattr (name : string) (attrs : list (string * attr)) : option attr :=
  match attrs with
  | [] => None
  | (k, a) :: attrs' => if String.eqb k name then Some a else getattr name attrs'
  end.

Definition hasattr (name : string) (attrs : list (string * attr)) : bool :=
  match getattr name attrs with
  | Some _ => true
  | None => false
  end.

(** [setattr(obj, name, a)] *)
Fixpoint setattr (name : string) (a : attr) (attrs : list (string * attr))
  : list (string * attr) :=
  match attrs with
  | [] => [(name, a)]
  | (k, b) :: attrs' =>
      if String.eqb k name then (k, a) :: attrs'
      else (k, b) :: setattr name a attrs'
  end.

(** [logging.addLevelName(level_num, level_name)] on the table of names. *)
Fixpoint add_level_name (level_num : Z) (level_name : string)
    (names : list (Z * string)) : list (Z * string) :=
  match names with
  | [] => [(level_num, level_name)]
  | (k, n) :: names' =>
      if k =? level_num then (k, level_name) :: names'
      else (k, n) :: add_level_name level_num level_name names'
  end.

Inductive attribute_error : Type :=
| AttributeError (msg : string).

(** [add_log_level(level_name, level_num, method_name)] *)
Definition add_log_level (level_name : string) (level_num : Z)
    (method_name : option string) (lg : logging_module)
  : logging_module + attribute_error :=
  let method_name :=
    match method_name with
    | Some m => if TextWrap.truthy m then m else PyStr.lower level_name
    | None => PyStr.lower level_name
    end in
  if hasattr level_name (module_attrs lg) then
    inr (AttributeError (level_name ++ " already defined in logging module"))
  else if hasattr method_name (module_attrs lg) then
    inr (AttributeError (method_name ++ " already defined in logging module"))
  else if hasattr method_name (logger_attrs lg) then
    inr (AttributeError (method_name ++ " already defined in logger class"))
  else
    inl (mkLogging
           (setattr method_name (ALogToRoot level_num)
              (setattr level_name (ALevel level_num) (module_attrs lg)))
           (setattr method_name (ALogForLevel level_num) (logger_attrs lg))
           (add_level_name level_num level_name (level_to_name lg))).

(** The levels of the [logging] module and the two that the script adds with
    [add_log_level("STDERR", 6)] and [add_log_level("STDOUT", 3)]. *)
Definition WARN : Z := 30.
Definition INFO : Z := 20.
Definition DEBUG : Z := 10.
Definition STDERR : Z := 6.
Definition STDOUT : Z := 3.

(** The level that [main] sets for a count of [-v] options. *)
Definition log_level (verbose : Z) : Z :=
  match verbose with
  | 0 => WARN
  | 1 => INFO
  | 2 => DEBUG
  | 3 => STDERR
  | 4 => STDOUT
  | _ => STDOUT
  end.

(** [self.isEnabledFor(level_num)] in [log_for_level], the logger's level
    being [level]. *)
Definition is_enabled_for (level level_num : Z) : bool := level <=? level_num.

(** An event reaches the log at a count of [-v] options: captured output is
    logged with the two added levels; what is printed, prompted or warned
    does not go through the logger. *)
Definition logged (verbose : Z) (e : event) : bool :=
  match e with
  | LogStdout _ => is_enabled_for (log_level verbose) STDOUT
  | LogStderr _ => is_enabled_for (log_level verbose) STDERR
  | _ => false
  end.

(** No entry of the tree has a name that starts with a slash. *)
Fixpoint plain_names (e : entry) : bool :=
  match e with
  | Dir _ es =>
      forallb
        (fun e' => negb (PyStr.startswith (entry_name e') "/") && plain_names e')
        es
  | File _ | DirLink _ => true
  end.

(** A comma occurs in the string. *)
Definition has_comma (s : string) : bool := PyStr.char_in "," s.


(** What the installs of [reqs] return when they are run one after another
    from the outside state [o], each with its path, and the state that the
    last one leaves. *)
Fixpoint install_results {W : Type}
    (sp_run : list string -> W -> CompletedProcess * W)
    (pip_path : string) (reqs : list string) (o : W)
  : list (string * CompletedProcess) * W :=
  match reqs with
  | [] => ([], o)
  | req :: rest =>
      let (cp, o1) := sp_run (install_cmd pip_path req) o in
      let (results, o2) := install_results sp_run pip_path rest o1 in
      ((req, cp) :: results, o2)
  end.

(** Those of some results that have a nonzero status. *)
Definition install_failures (results : list (string * CompletedProcess))
  : list (string * CompletedProcess) :=
  filter (fun p => negb (returncode (snd p) =? 0)) results.

(** The method name that [add_log_level] binds: the one given, or
    [level_name.lower()] where none or an empty one is given. *)
Definition method_name_of (level_name : string) (method_name : option string)
  : string :=
  match method_name with
  | Some m => if TextWrap.truthy m then m else PyStr.lower level_name
  | None => PyStr.lower level_name
  end.

(** [logging.getLevelName(level_num)] on the table of names, [None] for a
    level without a name. *)
Fixpoint get_level_name (level_num : Z) (names : list (Z * string))
  : option string :=
  match names with
  | [] => None
  | (k, n) :: names' =>
      if k =? level_num then Some n else get_level_name level_num names'
  end.

(** [s] has the same sort key as [t]. *)
Definition same_key (t s : string) : bool :=
  match key_cmp (key_of s) (key_of t) with
  | Eq => true
  | _ => false
  end.

(** ** More sample data *)

Module SampleMore.

(** An outside world in which only [pyenv local] fails. *)
Definition run_local_failing (cmd : list string) (n : nat)
  : CompletedProcess * nat :=
  (match cmd with
   | [_; "local"; _] => mkCompleted 1 "" "pyenv: cannot write .python-version"
   | _ => mkCompleted 0 "done" ""
   end, S n).

(** One in which only the upgrade of pip fails. *)
Definition run_upgrade_failing (cmd : list string) (n : nat)
  : CompletedProcess * nat :=
  (match cmd with
   | [_; "install"; "-U"; "pip"] => mkCompleted 1 "" "Could not fetch URL"
   | _ => mkCompleted 0 "done" ""
   end, S n).

(** Some of what the [logging] module holds when it is imported. *)
Definition logging : logging_module :=
  mkLogging
    [("WARN", ALevel 30); ("INFO", ALevel 20); ("DEBUG", ALevel 10);
     ("warning", AOther); ("info", AOther); ("debug", AOther); ("log", AOther)]
    [("warning", AOther); ("info", AOther); ("debug", AOther); ("log", AOther)]
    [(30, "WARNING"); (20, "INFO"); (10, "DEBUG")].

(** Versions of which two are written differently and have one sort key. *)
Definition listed : list string := ["3.9.1"; "3.10.2"; "3.09.1"; "2.7.18"].

End SampleMore.

(** ** Facts about strings *)

Lemma embeds_refl s : embeds s s.
Proof. induction s; constructor; assumption. Qed.

Lemma embeds_app s1 t1 s2 t2 :
  embeds s1 t1 -> embeds s2 t2 -> embeds (s1 ++ s2) (t1 ++ t2).
Proof.
  intros H1 H2. induction H1; simpl; try constructor; assumption.
Qed.

Lemma embeds_prefixed p s t : embeds s t -> embeds s (p ++ t).
Proof.
  intros H. induction p as [|c p IH]; simpl; [assumption|].
  constructor. exact IH.
Qed.

Lemma append_empty_r s : (s ++ "")%string = s.
Proof. induction s as [|c s IH]; simpl; congruence. Qed.

Lemma append_assoc (s t u : string) : ((s ++ t) ++ u)%string = (s ++ t ++ u)%string.
Proof. induction s as [|c s IH]; simpl; congruence. Qed.

Lemma concat_empty_cons l ls :
  String.concat "" (l :: ls) = (l ++ String.concat "" ls)%string.
Proof.
  destruct ls as [|l' ls]; simpl.
  - symmetry. apply append_empty_r.
  - reflexivity.
Qed.

Lemma concat_splitlines_aux n :
  forall text, (String.length text <= n)%nat ->
  String.concat "" (TextWrap.splitlines text) = text.
Proof.
  induction n as [|n IH]; intros text Hlen.
  - destruct text; [reflexivity | simpl in Hlen; lia].
  - destruct text as [|c rest]; [reflexivity|].
    simpl in Hlen. cbn [TextWrap.splitlines].
    destruct (TextWrap.is_linebreak c).
    + destruct rest as [|d rest']; [reflexivity|].
      destruct (Ascii.eqb c TextWrap.CR && Ascii.eqb d TextWrap.LF).
      * rewrite concat_empty_cons. simpl. rewrite IH; [reflexivity|].
        simpl in Hlen. lia.
      * rewrite concat_empty_cons. cbn [append]. rewrite IH; [reflexivity|]. lia.
    + assert (Hr : String.concat "" (TextWrap.splitlines rest) = rest)
        by (apply IH; lia).
      destruct (TextWrap.splitlines rest) as [|l ls].
      * simpl in Hr. subst rest. reflexivity.
      * rewrite concat_empty_cons in *. simpl. congruence.
Qed.

Lemma concat_splitlines text :
  String.concat "" (TextWrap.splitlines text) = text.
Proof. apply (concat_splitlines_aux (String.length text)). lia. Qed.

Lemma embeds_concat_map (f : string -> string) ls :
  (forall l, embeds l (f l)) ->
  embeds (String.concat "" ls) (String.concat "" (map f ls)).
Proof.
  intros Hf. induction ls as [|l ls IH].
  - constructor.
  - cbn [map]. rewrite !concat_empty_cons. apply embeds_app; auto.
Qed.

(** [textwrap.indent] only adds characters. *)
Lemma embeds_indent text prefix : embeds text (TextWrap.indent text prefix).
Proof.
  unfold TextWrap.indent.
  rewrite <- (concat_splitlines text) at 1.
  apply embeds_concat_map. intros l.
  destruct (TextWrap.truthy (PyStr.strip l)).
  - apply embeds_prefixed, embeds_refl.
  - apply embeds_refl.
Qed.

Lemma embeds_creation_error cp : embeds (stderr cp) (creation_error cp).
Proof.
  unfold creation_error. apply embeds_prefixed, embeds_prefixed, embeds_indent.
Qed.

Lemma embeds_install_warning req cp : embeds (stderr cp) (install_warning req cp).
Proof.
  unfold install_warning.
  repeat apply embeds_prefixed. apply embeds_indent.
Qed.

(** ** Facts about the monad *)

Section MonadFacts.

Context {W : Type} (sp_run : list string -> W -> CompletedProcess * W).

Lemma bind_emit {B} e (k : unit -> M W B) (w : world W) :
  bind (emit e) k w = k tt (mkWorld (stdin w) (outside w) (events w ++ [e])).
Proof. reflexivity. Qed.

Lemma bind_ret {A B} (a : A) (k : A -> M W B) (w : world W) :
  bind (ret a) k w = k a w.
Proof. reflexivity. Qed.

Lemma bind_raise {A B} e (k : A -> M W B) (w : world W) :
  bind (raise e) k w = (Raise e, w).
Proof. reflexivity. Qed.

Lemma bind_ok {A B} (m : M W A) (k : A -> M W B) (w w' : world W) a :
  m w = (Ok a, w') -> bind m k w = k a w'.
Proof. intros H. unfold bind. now rewrite H. Qed.

Lemma bind_fail {A B} (m : M W A) (k : A -> M W B) (w w' : world W) e :
  m w = (Raise e, w') -> bind m k w = (Raise e, w').
Proof. intros H. unfold bind. now rewrite H. Qed.

Lemma bind_run {B} cmd (k : CompletedProcess -> M W B) (w : world W) cp o :
  sp_run cmd (outside w) = (cp, o) ->
  bind (run sp_run cmd) k w
  = k cp (mkWorld (stdin w) o (events w ++ [Run cmd cp])).
Proof. intros H. unfold bind, run. now rewrite H. Qed.

Lemma bind_run_checked {B} cmd (k : CompletedProcess -> M W B)
    (w : world W) cp o :
  sp_run cmd (outside w) = (cp, o) ->
  returncode cp = 0 ->
  bind (run_checked sp_run cmd) k w
  = k cp (mkWorld (stdin w) o (events w ++ [Run cmd cp])).
Proof.
  intros H R. unfold run_checked.
  apply bind_ok. rewrite (bind_run _ _ _ _ _ H), R. reflexivity.
Qed.

Lemma runs_app evs1 evs2 : runs (evs1 ++ evs2) = (runs evs1 ++ runs evs2)%list.
Proof. unfold runs. apply flat_map_app. Qed.

Lemma warnings_app evs1 evs2 :
  warnings (evs1 ++ evs2) = (warnings evs1 ++ warnings evs2)%list.
Proof. unfold warnings. apply flat_map_app. Qed.

Lemma failed_installs_app pip evs1 evs2 :
  failed_installs pip (evs1 ++ evs2)
  = (failed_installs pip evs1 ++ failed_installs pip evs2)%list.
Proof. unfold failed_installs. apply flat_map_app. Qed.

End MonadFacts.

(** ** Facts about [create_environment] *)

Section Creation.

Context {W : Type} (sp_run : list string -> W -> CompletedProcess * W).
Context (pyenv_path : string) (pip_path_of : string -> string).

Ltac world_simpl := cbn [stdin outside events].

Lemma failed_installs_run pip req cp :
  failed_installs pip [Run (install_cmd pip req) cp]
  = if negb (returncode cp =? 0) then [install_warning req cp] else [].
Proof.
  unfold failed_installs, install_cmd. cbn [flat_map].
  rewrite String.eqb_refl, app_nil_r. reflexivity.
Qed.

Lemma install_results_paths pip (reqs : list string) : forall o,
  map fst (fst (install_results sp_run pip reqs o)) = reqs.
Proof.
  induction reqs as [|req reqs IH]; intros o; [reflexivity|].
  cbn [install_results].
  destruct (sp_run (install_cmd pip req) o) as [cp o1].
  specialize (IH o1).
  destruct (install_results sp_run pip reqs o1) as [results o2].
  cbn [fst map] in *. now rewrite IH.
Qed.

(** The loop over the requirements files runs to its end whatever the
    installs return: it leaves the outside state that the installs leave,
    and warns of those that return a nonzero status. *)
Lemma install_all_results pip (reqs : list string) :
  forall w : world W,
  exists evs,
    install_all sp_run pip (map Some reqs) w
    = (Ok tt,
       mkWorld (stdin w) (snd (install_results sp_run pip reqs (outside w)))
         (events w ++ evs))
    /\ runs evs = map (install_cmd pip) reqs
    /\ warnings evs
       = map (fun p => install_warning (fst p) (snd p))
           (install_failures
              (fst (install_results sp_run pip reqs (outside w))))
    /\ warnings evs = failed_installs pip evs.
Proof.
  induction reqs as [|req reqs IH]; intros w.
  - exists []. rewrite app_nil_r. destruct w; repeat split.
  - cbn [map install_all install_results].
    rewrite bind_emit.
    destruct (sp_run (install_cmd pip req) (outside w)) as [cp o] eqn:Hrun.
    erewrite bind_run by (world_simpl; exact Hrun).
    rewrite bind_emit. world_simpl.
    set (e1 := Print _). set (e2 := Run _ _). set (e3 := LogStdout _).
    pose proof (failed_installs_run pip req cp) as Hfail. fold e2 in Hfail.
    destruct (negb (returncode cp =? 0)) eqn:Hrc; rewrite bind_emit; world_simpl.
    + set (e4 := Warn _).
      match goal with
      | |- exists _, install_all sp_run pip (map Some reqs) ?w1 = _ /\ _ =>
          destruct (IH w1) as (evs & Heq & Hruns & Hres & Hwarn); rewrite Heq
      end.
      world_simpl. cbn [outside] in Hres.
      destruct (install_results sp_run pip reqs o) as [results o2].
      cbn [fst snd] in *.
      exists ([e1] ++ [e2] ++ [e3] ++ [e4] ++ evs)%list.
      split; [|split; [|split]].
      * rewrite <- !app_assoc. reflexivity.
      * rewrite !runs_app, Hruns. reflexivity.
      * rewrite !warnings_app, Hres. unfold install_failures.
        cbn [filter snd]. rewrite Hrc. reflexivity.
      * rewrite !warnings_app, !failed_installs_app, Hfail, Hwarn. reflexivity.
    + set (e4 := LogStderr _).
      match goal with
      | |- exists _, install_all sp_run pip (map Some reqs) ?w1 = _ /\ _ =>
          destruct (IH w1) as (evs & Heq & Hruns & Hres & Hwarn); rewrite Heq
      end.
      world_simpl. cbn [outside] in Hres.
      destruct (install_results sp_run pip reqs o) as [results o2].
      cbn [fst snd] in *.
      exists ([e1] ++ [e2] ++ [e3] ++ [e4] ++ evs)%list.
      split; [|split; [|split]].
      * rewrite <- !app_assoc. reflexivity.
      * rewrite !runs_app, Hruns. reflexivity.
      * rewrite !warnings_app, Hres. unfold install_failures.
        cbn [filter snd]. rewrite Hrc. reflexivity.
      * rewrite !warnings_app, !failed_installs_app, Hfail, Hwarn. reflexivity.
Qed.

(** C2: when the [pyenv virtualenv] call returns a nonzero status,
    [create_environment] raises a [RuntimeError] whose message is the
    status line followed by the indented standard error of that call, so it
    holds that text; the call is the only subprocess call of the run. *)
Theorem creation_failure_aborts version name reqs (w : world W) cp o :
  sp_run [pyenv_path; "virtualenv"; version; name] (outside w) = (cp, o) ->
  returncode cp <> 0 ->
  exists evs,
    create_environment sp_run pyenv_path pip_path_of version name reqs w
    = (Raise (RuntimeError (creation_error cp)),
       mkWorld (stdin w) o (events w ++ evs))
    /\ runs evs = [[pyenv_path; "virtualenv"; version; name]]
    /\ creation_error cp
       = ("Could not create pyenv environment (status code "
          ++ PyStr.of_Z (returncode cp) ++ ")" ++ NL
          ++ TextWrap.indent (stderr cp) "  ")%string
    /\ embeds (stderr cp) (creation_error cp).
Proof.
  intros Hrun Hrc.
  unfold create_environment.
  rewrite bind_emit.
  erewrite bind_run by (world_simpl; exact Hrun).
  rewrite bind_emit. world_simpl.
  apply Z.eqb_neq in Hrc. rewrite Hrc. cbn [negb].
  rewrite bind_raise.
  set (e1 := Print _). set (e2 := Run _ _). set (e3 := LogStdout _).
  exists ([e1] ++ [e2] ++ [e3])%list. split; [|split; [|split]].
  - rewrite <- !app_assoc. reflexivity.
  - reflexivity.
  - unfold creation_error, status_line. now rewrite !append_assoc.
  - apply embeds_creation_error.
Qed.

(** C3: once the environment is created, made local and pip upgraded,
    every requirements file is installed in turn, in the order given,
    whatever the earlier installs returned: the run ends normally in the
    outside state that the last install leaves.  The warnings are exactly
    those of the installs that the outside world answers with a nonzero
    status, in their order, each holding the path of its file and the
    standard error of its install. *)
Theorem requirements_all_attempted version name (reqs : list string)
    (w : world W) cp1 o1 cp2 o2 cp3 o3 :
  let pip := pip_path_of name in
  let results := install_results sp_run pip reqs o3 in
  sp_run [pyenv_path; "virtualenv"; version; name] (outside w) = (cp1, o1) ->
  returncode cp1 = 0 ->
  sp_run [pyenv_path; "local"; name] o1 = (cp2, o2) ->
  returncode cp2 = 0 ->
  sp_run [pip; "install"; "-U"; "pip"] o2 = (cp3, o3) ->
  returncode cp3 = 0 ->
  exists evs,
    create_environment sp_run pyenv_path pip_path_of version name
      (Some (map Some reqs)) w
    = (Ok tt, mkWorld (stdin w) (snd results) (events w ++ evs))
    /\ runs evs
       = ([[pyenv_path; "virtualenv"; version; name];
           [pyenv_path; "local"; name];
           [pip; "install"; "-U"; "pip"]]
          ++ map (install_cmd pip) reqs)%list
    /\ map fst (fst results) = reqs
    /\ warnings evs
       = map (fun p => install_warning (fst p) (snd p))
           (install_failures (fst results))
    /\ warnings evs = failed_installs pip evs
    /\ forall req cp,
         embeds (stderr cp) (install_warning req cp)
         /\ exists a b, install_warning req cp = (a ++ req ++ b)%string.
Proof.
  intros pip results H1 R1 H2 R2 H3 R3.
  assert (Htext : forall req cp,
             embeds (stderr cp) (install_warning req cp)
             /\ exists a b, install_warning req cp = (a ++ req ++ b)%string).
  { intros req cp. split; [apply embeds_install_warning|].
    unfold install_warning. do 2 eexists.
    rewrite append_assoc. reflexivity. }
  unfold create_environment.
  rewrite bind_emit.
  erewrite bind_run by (world_simpl; exact H1).
  rewrite bind_emit. world_simpl.
  rewrite R1. change (negb (0 =? 0)) with false. cbv iota.
  rewrite !bind_emit. world_simpl.
  erewrite bind_run_checked by (world_simpl; eassumption).
  rewrite !bind_emit. world_simpl.
  fold pip.
  erewrite bind_run_checked by (world_simpl; eassumption).
  rewrite !bind_emit. world_simpl.
  match goal with
  | |- exists _, bind ?m _ ?w1 = _ /\ _ =>
      assert (Hbr : m w1 = install_all sp_run pip (map Some reqs) w1)
        by (destruct reqs; reflexivity);
      destruct (install_all_results pip reqs w1)
        as (evs & Heq & Hruns & Hres & Hwarn);
      rewrite Heq in Hbr; erewrite bind_ok by exact Hbr
  end.
  cbn [outside] in Hres. fold results in Hres.
  unfold emit. world_simpl. fold results.
  set (e1 := Print _). set (e2 := Run _ cp1). set (e3 := LogStdout _).
  set (e4 := LogStderr _). set (e5 := Print _). set (e6 := Run _ cp2).
  set (e7 := LogStdout _). set (e8 := LogStderr _). set (e9 := Print _).
  set (e10 := Run _ cp3). set (e11 := LogStdout _). set (e12 := LogStderr _).
  exists ([e1; e2; e3; e4; e5; e6; e7; e8; e9; e10; e11; e12]
          ++ evs ++ [Print "Done!"])%list.
  split; [|split; [|split; [|split; [|split]]]].
  - rewrite <- !app_assoc. reflexivity.
  - rewrite !runs_app, Hruns.
    change (runs [Print "Done!"]) with (@nil (list string)).
    rewrite app_nil_r. reflexivity.
  - apply install_results_paths.
  - rewrite !warnings_app, Hres.
    change (warnings [e1; e2; e3; e4; e5; e6; e7; e8; e9; e10; e11; e12])
      with (@nil string).
    change (warnings [Print "Done!"]) with (@nil string).
    now rewrite app_nil_r.
  - rewrite !warnings_app, !failed_installs_app, Hwarn. reflexivity.
  - exact Htext.
Qed.

End Creation.


(** ** Facts about the picker *)

Section PickerFacts.

Context {W : Type}.

Lemma dict_max_cons o os start :
  exists n, dict_max (enumerate start (o :: os)) = Ok n.
Proof. cbn [enumerate dict_max]. eauto. Qed.

Lemma picker_nil prompt sep nargs allow_quit (w : world W) :
  picker [] prompt sep nargs allow_quit w
  = (Raise (ValueError "max() arg is an empty sequence"), w).
Proof. reflexivity. Qed.

(** On a non-empty list of options the picker is its loop. *)
Lemma picker_cons o os prompt sep nargs allow_quit (w : world W) :
  exists s,
    picker (o :: os) prompt sep nargs allow_quit w
    = let '(r, unread, evs) :=
        picker_loop (enumerate 1 (o :: os)) s (multioption nargs)
                    (allows_empty nargs) allow_quit (stdin w) in
      (r, mkWorld unread (outside w) (events w ++ evs)).
Proof.
  unfold picker.
  destruct (dict_max_cons o os 1) as [n Hn]. rewrite Hn.
  eexists. reflexivity.
Qed.

(** The loop writes prompts and diagnostics only. *)
Lemma picker_loop_runs d s multi empty_ok allow_quit lines :
  runs (snd (picker_loop d s multi empty_ok allow_quit lines)) = [].
Proof.
  induction lines as [|line rest IH]; [reflexivity|].
  cbn [picker_loop].
  destruct (picker_loop d s multi empty_ok allow_quit rest) as [[r u] evs].
  cbn [snd] in IH.
  repeat match goal with
         | |- context [if ?b then _ else _] => destruct b
         | |- context [match ?x with inl _ => _ | inr _ => _ end] => destruct x
         | |- context [match ?x with [] => _ | _ :: _ => _ end] => destruct x
         end; cbn [snd]; try reflexivity;
    rewrite runs_app, IH; reflexivity.
Qed.

Lemma picker_runs options prompt sep nargs allow_quit (w w' : world W) r :
  picker options prompt sep nargs allow_quit w = (r, w') ->
  runs (events w') = runs (events w) /\ outside w' = outside w.
Proof.
  unfold picker. destruct (dict_max (enumerate 1 options)).
  - pose proof (picker_loop_runs (enumerate 1 options)
                  (menu (enumerate 1 options) a prompt sep nargs allow_quit)
                  (multioption nargs) (allows_empty nargs) allow_quit (stdin w))
      as Hr.
    destruct (picker_loop _ _ _ _ _ _) as [[r0 u] evs]. cbn [snd] in Hr.
    intros [= <- <-]. cbn [events outside].
    rewrite runs_app, Hr, app_nil_r. auto.
  - intros [= <- <-]. auto.
Qed.

Lemma tokens_of_empty multi : tokens multi "" = [""].
Proof. destruct multi; reflexivity. Qed.

(** A round whose response holds a quit token ends the loop. *)
Lemma picker_loop_quit d s multi empty_ok line rest r :
  In r (tokens multi (PyStr.strip line)) ->
  PyStr.lower r = "q" ->
  picker_loop d s multi empty_ok true (line :: rest)
  = (Ok Quit, rest, [Prompt s]).
Proof.
  intros Hin Hq. cbn [picker_loop].
  destruct (PyStr.strip line) as [|c t] eqn:Hs.
  - rewrite tokens_of_empty in Hin. destruct Hin as [<-|[]]. discriminate Hq.
  - cbn [TextWrap.truthy negb andb].
    assert (Hex : has_quit (tokens multi (String c t)) = true).
    { unfold has_quit. apply existsb_exists. exists r. split; [exact Hin|].
      rewrite Hq. reflexivity. }
    rewrite Hex. reflexivity.
Qed.

(** The tokens play no part in the selection loop beyond their number. *)
Lemma select_ignores_tokens d response :
  forall rs rs' out,
    List.length rs = List.length rs' ->
    select d response rs out = select d response rs' out.
Proof.
  induction rs as [|r rs IH]; intros [|r' rs'] out Hlen;
    try discriminate Hlen; [reflexivity|].
  cbn [select].
  destruct (PyStr.int response); [|reflexivity].
  destruct (dict_get z d); [|reflexivity].
  apply IH. now injection Hlen.
Qed.

End PickerFacts.

(** ** Facts about argument resolution and [main] *)

Section MainFacts.

Context {W : Type} (sp_run : list string -> W -> CompletedProcess * W).
Context (pyenv_path : string) (pip_path_of : string -> string).
Context {regex : Type} (re_compile : string -> option regex).
Context (re_search : regex -> string -> bool).
Context (CWD : string).

Local Abbreviation filter_versions' := (filter_versions regex re_compile re_search).
Local Abbreviation from_parsed' := (from_parsed re_compile re_search CWD).
Local Abbreviation main' :=
  (main sp_run pyenv_path pip_path_of re_compile re_search CWD).

Lemma bind_lift_ok {A B} (a : A) (k : A -> M W B) (w : world W) :
  bind (lift (Ok a)) k w = k a w.
Proof. reflexivity. Qed.

Lemma main_fails_in_from_parsed names es ns (w w' : world W) e :
  from_parsed' names es ns w = (Raise e, w') ->
  main' names es ns w = (Raise e, w').
Proof. intros H. unfold main. now apply bind_fail. Qed.

Lemma pick_versions_quit versions (w w' : world W) :
  picker versions "Pick python version: " ". " (NInt 1) true w = (Ok Quit, w') ->
  pick_versions versions w = (Raise (SystemExit 0), w').
Proof. intros H. unfold pick_versions. now rewrite (bind_ok _ _ _ _ _ H). Qed.

(** C10: on an empty sequence of options the picker raises the
    [ValueError] of [max] and leaves the world as it was, so nothing is
    shown and no line is read; hence [pick_requirements] raises it when
    no requirements file is found, and so does a run with a bare [-r]. *)
Theorem picker_empty_options_crash :
  (forall prompt sep nargs allow_quit (w : world W),
      picker [] prompt sep nargs allow_quit w
      = (Raise (ValueError "max() arg is an empty sequence"), w))
  /\ (forall es (w : world W),
         locate_requirements CWD es = [] ->
         pick_requirements CWD es w
         = (Raise (ValueError "max() arg is an empty sequence"), w))
  /\ (forall names es ns v vs (w : world W),
         filter_versions' names (ns_py_version ns) = Ok (v :: vs) ->
         ns_pick ns = false ->
         ns_requirements ns = Some [None] ->
         locate_requirements CWD es = [] ->
         main' names es ns w
         = (Raise (ValueError "max() arg is an empty sequence"), w)).
Proof.
  assert (Hreq : forall es (w : world W),
             locate_requirements CWD es = [] ->
             pick_requirements CWD es w
             = (Raise (ValueError "max() arg is an empty sequence"), w)).
  { intros es w Hloc. unfold pick_requirements. rewrite Hloc.
    apply picker_nil. }
  split; [exact picker_nil | split; [exact Hreq|]].
  intros names es ns v vs w Hf Hpick Hr Hloc.
  apply main_fails_in_from_parsed.
  unfold from_parsed. rewrite Hf, Hpick, Hr, bind_lift_ok, bind_ret.
  apply bind_fail, bind_fail, Hreq, Hloc.
Qed.

(** C8: when the filter leaves no version, argument resolution raises and
    [main] ends there, before any subprocess call and without reading a
    line: [IndexError] from [matching_versions[0]] without [--pick], the
    [ValueError] of the picker's [max] with [--pick]. *)
Theorem no_match_is_fatal names es ns (w : world W) :
  filter_versions' names (ns_py_version ns) = Ok [] ->
  exists e,
    from_parsed' names es ns w = (Raise e, w)
    /\ main' names es ns w = (Raise e, w)
    /\ exit_status (fst (main' names es ns w)) = 1
    /\ e = if ns_pick ns
           then ValueError "max() arg is an empty sequence"
           else IndexError.
Proof.
  intros Hf.
  assert (Hfp : from_parsed' names es ns w
                = (Raise (if ns_pick ns
                          then ValueError "max() arg is an empty sequence"
                          else IndexError), w)).
  { unfold from_parsed. rewrite Hf, bind_lift_ok.
    destruct (ns_pick ns).
    - apply bind_fail. unfold pick_versions. apply bind_fail, picker_nil.
    - apply bind_raise. }
  eexists. split; [exact Hfp | split; [|split]].
  - now apply main_fails_in_from_parsed.
  - rewrite (main_fails_in_from_parsed _ _ _ _ _ _ Hfp).
    destruct (ns_pick ns); reflexivity.
  - reflexivity.
Qed.

(** C7: with quit allowed, a response one of whose tokens lowers to ["q"]
    makes the picker return the quit signal; and when the version picker
    of a run returns the quit signal, [main] ends with [SystemExit(0)],
    exit status 0, and no subprocess call. *)
Theorem quit_token_quits :
  (forall o os prompt sep nargs line rest r (w : world W),
      stdin w = line :: rest ->
      In r (tokens (multioption nargs) (PyStr.strip line)) ->
      PyStr.lower r = "q" ->
      exists s,
        picker (o :: os) prompt sep nargs true w
        = (Ok Quit, mkWorld rest (outside w) (events w ++ [Prompt s])))
  /\ (forall names es ns versions (w w' : world W),
         ns_pick ns = true ->
         filter_versions' names (ns_py_version ns) = Ok versions ->
         picker versions "Pick python version: " ". " (NInt 1) true w
         = (Ok Quit, w') ->
         main' names es ns w = (Raise (SystemExit 0), w')
         /\ exit_status (fst (main' names es ns w)) = 0
         /\ runs (events w') = runs (events w)
         /\ outside w' = outside w).
Proof.
  split.
  - intros o os prompt sep nargs line rest r w Hin Htok Hq.
    destruct (picker_cons o os prompt sep nargs true w) as [s Hs].
    exists s. rewrite Hs, Hin.
    rewrite (picker_loop_quit _ _ _ _ _ _ _ Htok Hq). reflexivity.
  - intros names es ns versions w w' Hpick Hf Hquit.
    assert (Hmain : main' names es ns w = (Raise (SystemExit 0), w')).
    { apply main_fails_in_from_parsed.
      unfold from_parsed. rewrite Hf, Hpick, bind_lift_ok.
      apply bind_fail, pick_versions_quit, Hquit. }
    split; [exact Hmain | split].
    + rewrite Hmain. reflexivity.
    + eapply picker_runs, Hquit.
Qed.

End MainFacts.

(** ** Facts about [filter_versions] *)

Section FilterFacts.

Context {regex : Type} (re_compile : string -> option regex).
Context (re_search : regex -> string -> bool).

Lemma yield_if_filter test versions :
  yield_if test versions = filter test versions.
Proof.
  induction versions as [|v vs IH]; [reflexivity|].
  cbn [yield_if filter]. now rewrite IH.
Qed.

Lemma subseq_filter {A} (test : A -> bool) l : subseq (filter test l) l.
Proof.
  induction l as [|x l IH]; cbn [filter]; [constructor|].
  destruct (test x); now constructor.
Qed.

Lemma startswith_empty v : PyStr.startswith v "" = true.
Proof. destruct v; reflexivity. Qed.

Lemma filter_all {A} (test : A -> bool) l :
  (forall x, test x = true) -> filter test l = l.
Proof.
  intros H. induction l as [|x l IH]; [reflexivity|].
  cbn [filter]. now rewrite H, IH.
Qed.

Lemma substring_tail c s : substring 1 (String.length (String c s) - 1) (String c s) = s.
Proof.
  cbn [String.length substring]. rewrite Nat.sub_succ, Nat.sub_0_r.
  induction s as [|d s IH]; [reflexivity|].
  cbn [String.length substring]. now rewrite IH.
Qed.

(** C6: [filter_versions] yields the versions that match, in the order of
    the list it reads, so a subsequence of it.  After a leading slash the
    rest of the filter is compiled and a version matches when the pattern
    is found in it; otherwise a version matches when it starts with the
    filter; the empty filter yields every version. *)
Theorem filter_versions_selects names versions :
  get_pyenv_versions names = Ok versions ->
  (forall rest r,
      re_compile rest = Some r ->
      filter_versions regex re_compile re_search names (String "/" rest)
      = Ok (filter (re_search r) versions)
      /\ subseq (filter (re_search r) versions) versions)
  /\ (forall filter_str,
         PyStr.startswith filter_str "/" = false ->
         filter_versions regex re_compile re_search names filter_str
         = Ok (filter (fun v => PyStr.startswith v filter_str) versions)
         /\ subseq (filter (fun v => PyStr.startswith v filter_str) versions)
                   versions)
  /\ filter_versions regex re_compile re_search names "" = Ok versions.
Proof.
  intros Hv. split; [|split].
  - intros rest r Hc. split; [|apply subseq_filter].
    unfold filter_versions. rewrite Hv. cbn [rbind].
    change (PyStr.startswith (String "/" rest) "/") with true. cbv iota.
    rewrite substring_tail, Hc, yield_if_filter. reflexivity.
  - intros f Hs. split; [|apply subseq_filter].
    unfold filter_versions. rewrite Hv. cbn [rbind].
    rewrite Hs, yield_if_filter. reflexivity.
  - unfold filter_versions. rewrite Hv. cbn [rbind].
    change (PyStr.startswith "" "/") with false. cbv iota.
    rewrite yield_if_filter, filter_all; [reflexivity|].
    apply startswith_empty.
Qed.

End FilterFacts.

(** ** Facts about orders *)

Section Lex.

Context {A : Type} (cmp : A -> A -> comparison) (Hcmp : total_cmp cmp).

Lemma lex_cmp_eq l1 : forall l2, lex_cmp cmp l1 l2 = Eq -> l1 = l2.
Proof.
  induction l1 as [|x l1 IH]; intros [|y l2] H; try discriminate H; auto.
  cbn [lex_cmp] in H. destruct (cmp x y) eqn:E; try discriminate H.
  apply (cmp_eq _ Hcmp) in E. subst y. f_equal. now apply IH.
Qed.

Lemma lex_cmp_refl l : lex_cmp cmp l l = Eq.
Proof.
  induction l as [|x l IH]; [reflexivity|].
  cbn [lex_cmp]. now rewrite (cmp_refl _ Hcmp).
Qed.

Lemma lex_cmp_antisym l1 :
  forall l2, lex_cmp cmp l2 l1 = CompOpp (lex_cmp cmp l1 l2).
Proof.
  induction l1 as [|x l1 IH]; intros [|y l2]; try reflexivity.
  cbn [lex_cmp]. rewrite (cmp_antisym _ Hcmp x y).
  destruct (cmp x y); cbn [CompOpp]; auto.
Qed.

Lemma lex_cmp_trans l1 :
  forall l2 l3,
    lex_cmp cmp l1 l2 = Lt -> lex_cmp cmp l2 l3 = Lt -> lex_cmp cmp l1 l3 = Lt.
Proof.
  induction l1 as [|x l1 IH]; intros [|y l2] [|z l3] H12 H23;
    try discriminate; try reflexivity.
  cbn [lex_cmp] in *.
  destruct (cmp x y) eqn:Exy; try discriminate.
  - apply (cmp_eq _ Hcmp) in Exy. subst y.
    destruct (cmp x z); try discriminate; eauto.
  - destruct (cmp y z) eqn:Eyz; try discriminate.
    + apply (cmp_eq _ Hcmp) in Eyz. subst z. now rewrite Exy.
    + now rewrite (cmp_trans _ Hcmp _ _ _ Exy Eyz).
Qed.

Lemma lex_total : total_cmp (lex_cmp cmp).
Proof.
  constructor.
  - intros x y. apply lex_cmp_eq.
  - apply lex_cmp_refl.
  - intros x y. apply lex_cmp_antisym.
  - apply lex_cmp_trans.
Qed.

(** A list is smaller than each of its proper extensions. *)
Lemma lex_cmp_prefix l x m : lex_cmp cmp l (l ++ x :: m) = Lt.
Proof.
  induction l as [|y l IH]; [reflexivity|].
  cbn [lex_cmp app]. now rewrite (cmp_refl _ Hcmp).
Qed.

(** Behind a common prefix the comparison is that of the remainders. *)
Lemma lex_cmp_app l m1 m2 :
  lex_cmp cmp (l ++ m1) (l ++ m2) = lex_cmp cmp m1 m2.
Proof.
  induction l as [|y l IH]; [reflexivity|].
  cbn [lex_cmp app]. now rewrite (cmp_refl _ Hcmp).
Qed.

End Lex.

Lemma Z_total : total_cmp Z.compare.
Proof.
  constructor.
  - intros x y. apply Z.compare_eq.
  - apply Z.compare_refl.
  - intros x y. apply Z.compare_antisym.
  - intros x y z. rewrite !Z.compare_lt_iff. lia.
Qed.

Lemma ascii_compare_refl c : Ascii.compare c c = Eq.
Proof. unfold Ascii.compare. apply N.compare_refl. Qed.

Lemma ascii_total : total_cmp Ascii.compare.
Proof.
  constructor.
  - apply Ascii.compare_eq_iff.
  - apply ascii_compare_refl.
  - intros x y. apply Ascii.compare_antisym.
  - intros x y z. unfold Ascii.compare. rewrite !N.compare_lt_iff. lia.
Qed.

Lemma string_compare_lex s :
  forall t,
    String.compare s t
    = lex_cmp Ascii.compare (list_ascii_of_string s) (list_ascii_of_string t).
Proof.
  induction s as [|c s IH]; intros [|d t]; try reflexivity.
  cbn [String.compare list_ascii_of_string lex_cmp].
  rewrite IH. reflexivity.
Qed.

Lemma string_total : total_cmp String.compare.
Proof.
  pose proof (lex_total _ ascii_total) as L.
  constructor.
  - apply String.compare_eq_iff.
  - intros x. rewrite string_compare_lex. apply (cmp_refl _ L).
  - intros x y. rewrite !string_compare_lex. apply (cmp_antisym _ L).
  - intros x y z. rewrite !string_compare_lex. apply (cmp_trans _ L).
Qed.

Lemma kelem_total : total_cmp kelem_cmp.
Proof.
  pose proof (lex_total _ Z_total) as L.
  constructor.
  - intros [a|s|a b c] [a'|s'|a' b' c'] H; cbn in H; try discriminate H.
    + apply Z.compare_eq in H. congruence.
    + apply String.compare_eq_iff in H. congruence.
    + apply (cmp_eq _ L [a; b; c] [a'; b'; c']) in H. congruence.
  - intros [a|s|a b c]; unfold kelem_cmp.
    + apply Z.compare_refl.
    + apply (cmp_refl _ string_total).
    + apply (cmp_refl _ L).
  - intros [a|s|a b c] [a'|s'|a' b' c']; unfold kelem_cmp; try reflexivity.
    + apply Z.compare_antisym.
    + apply (cmp_antisym _ string_total).
    + apply (cmp_antisym _ L).
  - intros [a|s|a b c] [a'|s'|a' b' c'] [a''|s''|a'' b'' c''];
      unfold kelem_cmp; cbn [kelem_rank]; intros H1 H2;
      try discriminate H1; try discriminate H2; try reflexivity.
    + exact (cmp_trans _ Z_total _ _ _ H1 H2).
    + exact (cmp_trans _ string_total _ _ _ H1 H2).
    + exact (cmp_trans _ L _ _ _ H1 H2).
Qed.

Lemma key_total : total_cmp key_cmp.
Proof. apply lex_total, kelem_total. Qed.

(** Where Python's [<] on tuples returns, it is the total order. *)

Lemma kelem_eqb_cmp x y : kelem_eqb x y = true <-> kelem_cmp x y = Eq.
Proof.
  split.
  - destruct x as [a|s|a b c], y as [a'|s'|a' b' c']; cbn [kelem_eqb];
      try discriminate; intros H.
    + apply Z.eqb_eq in H. subst. apply (cmp_refl _ kelem_total).
    + apply String.eqb_eq in H. subst. apply (cmp_refl _ kelem_total).
    + apply andb_prop in H as [H Hc]. apply andb_prop in H as [Ha Hb].
      apply Z.eqb_eq in Ha, Hb, Hc. subst. apply (cmp_refl _ kelem_total).
  - intros H. apply (cmp_eq _ kelem_total) in H. subst y.
    destruct x; cbn [kelem_eqb]; rewrite ?Z.eqb_refl, ?String.eqb_refl; reflexivity.
Qed.

Lemma Z_lex_step a a' (r : bool) (c : comparison) :
  r = is_lt c ->
  (if negb (a =? a') then a <? a' else r)
  = is_lt (match a ?= a' with Eq => c | o => o end).
Proof.
  intros Hr. destruct (Z.compare_spec a a') as [E|E|E].
  - subst. now rewrite Z.eqb_refl.
  - replace (a =? a') with false by (symmetry; apply Z.eqb_neq; lia).
    cbn [negb is_lt]. apply Z.ltb_lt, E.
  - replace (a =? a') with false by (symmetry; apply Z.eqb_neq; lia).
    cbn [negb is_lt]. apply Z.ltb_ge. lia.
Qed.

Lemma kelem_lt_cmp x y b : kelem_lt x y = Ok b -> b = is_lt (kelem_cmp x y).
Proof.
  destruct x as [a|s|a b1 c], y as [a'|s'|a' b1' c']; cbn [kelem_lt];
    try discriminate; intros [= <-]; cbn [kelem_cmp lex_cmp].
  - reflexivity.
  - reflexivity.
  - apply Z_lex_step, Z_lex_step. unfold Z.ltb. now destruct (c ?= c').
Qed.

Lemma key_lt_cmp k1 :
  forall k2 b, key_lt k1 k2 = Ok b -> b = is_lt (key_cmp k1 k2).
Proof.
  induction k1 as [|x k1 IH]; intros [|y k2] b; cbn [key_lt];
    try (intros [= <-]; reflexivity).
  unfold key_cmp. cbn [lex_cmp]. fold key_cmp.
  destruct (kelem_eqb x y) eqn:E.
  - apply kelem_eqb_cmp in E. rewrite E. apply IH.
  - intros H. apply kelem_lt_cmp in H.
    destruct (kelem_cmp x y) eqn:C; try exact H.
    apply kelem_eqb_cmp in C. congruence.
Qed.

(** ** Facts about [sorted] *)

Section SortFacts.

Context {A K : Type} (cmp : K -> K -> comparison) (Hcmp : total_cmp cmp).
Context (keyf : A -> K).

Let ltb (a b : A) : bool := is_lt (cmp (keyf a) (keyf b)).
Let le (a b : A) : Prop := ltb b a = false.

Lemma ltb_asym a b : ltb a b = true -> le a b.
Proof.
  unfold le, ltb. rewrite (cmp_antisym _ Hcmp (keyf a) (keyf b)).
  destruct (cmp (keyf a) (keyf b)); cbn; congruence.
Qed.

Lemma le_trans a b c : le a b -> le b c -> le a c.
Proof.
  unfold le, ltb. intros Hab Hbc.
  destruct (cmp (keyf c) (keyf a)) eqn:Eca; try reflexivity.
  destruct (cmp (keyf b) (keyf a)) eqn:Eba; try discriminate Hab.
  - apply (cmp_eq _ Hcmp) in Eba. rewrite Eba, Eca in Hbc. discriminate Hbc.
  - assert (Eab : cmp (keyf a) (keyf b) = Lt).
    { rewrite (cmp_antisym _ Hcmp (keyf b) (keyf a)), Eba. reflexivity. }
    rewrite (cmp_trans _ Hcmp _ _ _ Eca Eab) in Hbc. discriminate Hbc.
Qed.

Lemma insert_perm x l : Permutation (x :: l) (insert ltb x l).
Proof.
  induction l as [|y l IH]; cbn [insert]; [reflexivity|].
  destruct (ltb y x); [|reflexivity].
  rewrite perm_swap. now constructor.
Qed.

Lemma isort_perm l : Permutation l (isort ltb l).
Proof.
  induction l as [|x l IH]; cbn [isort]; [constructor|].
  rewrite <- insert_perm. now constructor.
Qed.

Lemma insert_sorted x l :
  StronglySorted le l -> StronglySorted le (insert ltb x l).
Proof.
  induction 1 as [|y l Hs IH Hy]; cbn [insert].
  - repeat constructor.
  - destruct (ltb y x) eqn:E.
    + constructor; [exact IH|].
      apply (Permutation_Forall (insert_perm x l)).
      constructor; [now apply ltb_asym | exact Hy].
    + constructor; [now constructor|].
      constructor; [exact E|].
      eapply Forall_impl; [|exact Hy].
      intros z Hz. now apply le_trans with y.
Qed.

Lemma isort_sorted l : StronglySorted le (isort ltb l).
Proof.
  induction l as [|x l IH]; cbn [isort]; [constructor|].
  now apply insert_sorted.
Qed.

Lemma sorted_before l x y :
  StronglySorted le l -> before x y l -> ltb y x = false.
Proof.
  intros Hs (l1 & l2 & l3 & ->).
  induction l1 as [|z l1 IH]; cbn [app] in Hs.
  - apply StronglySorted_inv in Hs as [_ Hall].
    rewrite Forall_forall in Hall. apply Hall.
    apply in_or_app. right. now left.
  - apply StronglySorted_inv in Hs as [Hs _]. now apply IH.
Qed.

(** In the sorted list no element comes after one it is smaller than. *)
Lemma isort_before l x y : before x y (isort ltb l) -> ltb y x = false.
Proof. apply sorted_before, isort_sorted. Qed.

(** The sort with a comparison that can raise, on keyed elements. *)
Variable lt : K -> K -> res bool.
Variable dec : A -> K * A.
Hypothesis dec_key : forall a, dec a = (keyf a, a).

Lemma rinsert_insert x l :
  (forall y, In y l -> lt (keyf y) (keyf x) = Ok (ltb y x)) ->
  rinsert (fun p q => lt (fst p) (fst q)) (dec x) (map dec l)
  = Ok (map dec (insert ltb x l)).
Proof.
  induction l as [|y l IH]; intros H; [reflexivity|].
  cbn [map rinsert insert].
  rewrite !dec_key. cbn [fst]. rewrite (H y (or_introl eq_refl)).
  cbn [rbind]. destruct (ltb y x).
  - rewrite <- !dec_key, IH by (intros z Hz; apply H; now right).
    reflexivity.
  - rewrite <- !dec_key. reflexivity.
Qed.

Lemma rsort_isort l :
  (forall x y, In x l -> In y l -> lt (keyf x) (keyf y) = Ok (ltb x y)) ->
  rsort (fun p q => lt (fst p) (fst q)) (map dec l)
  = Ok (map dec (isort ltb l)).
Proof.
  induction l as [|x l IH]; intros H; [reflexivity|].
  cbn [map rsort isort].
  rewrite IH by (intros; apply H; now right). cbn [rbind].
  apply rinsert_insert. intros y Hy. apply H; [right|now left].
  eapply Permutation_in; [symmetry; apply isort_perm | exact Hy].
Qed.

End SortFacts.

(** ** Facts about [int] and the version regex *)

Lemma is_digit_cases c :
  PyStr.is_digit c = true ->
  In c (list_ascii_of_string PyStr.digits).
Proof.
  unfold PyStr.is_digit, PyStr.digits. cbn [PyStr.char_in list_ascii_of_string].
  intros H.
  repeat (apply orb_prop in H as [H|H];
          [apply Ascii.eqb_eq in H; subst; cbn; tauto|]).
  discriminate H.
Qed.

Lemma digit_not_space c : PyStr.is_digit c = true -> PyStr.is_int_space c = false.
Proof.
  intros H. apply is_digit_cases in H. cbn in H.
  repeat (destruct H as [<-|H]; [reflexivity|]). contradiction.
Qed.

Lemma rstrip_digits s :
  all_digits s = true -> PyStr.rstrip_by PyStr.is_int_space s = s.
Proof.
  induction s as [|c s IH]; [reflexivity|].
  cbn [all_digits PyStr.rstrip_by]. intros H.
  apply andb_prop in H as [Hc Hs]. rewrite (IH Hs).
  destruct s; [|reflexivity].
  now rewrite (digit_not_space _ Hc).
Qed.

Lemma strip_numeral s :
  all_digits s = true ->
  PyStr.rstrip_by PyStr.is_int_space (PyStr.lstrip_by PyStr.is_int_space s) = s.
Proof.
  intros H.
  destruct s as [|c s]; [reflexivity|].
  cbn [PyStr.lstrip_by]. cbn [all_digits] in H.
  pose proof H as H'. apply andb_prop in H' as [Hc _].
  rewrite (digit_not_space _ Hc). now apply rstrip_digits.
Qed.

Lemma int_digits_total s :
  all_digits s = true ->
  forall acc b, (s <> EmptyString \/ b = true) ->
  exists z, PyStr.int_digits acc b s = Some z.
Proof.
  induction s as [|c s IH]; intros H acc b Hb.
  - destruct Hb as [Hb| ->]; [contradiction|]. cbn. eauto.
  - cbn [all_digits] in H. apply andb_prop in H as [Hc Hs].
    cbn [PyStr.int_digits]. rewrite Hc. apply IH; auto.
Qed.

Lemma int_numeral s : numeral s -> exists z, PyStr.int s = Some z.
Proof.
  intros [Hne Hd]. unfold PyStr.int. rewrite (strip_numeral _ Hd).
  destruct (int_digits_total s Hd 0 false (or_introl Hne)) as [z Hz].
  destruct s as [|c s]; [contradiction|].
  cbn [all_digits] in Hd. apply andb_prop in Hd as [Hc _].
  apply is_digit_cases in Hc. cbn in Hc.
  repeat (destruct Hc as [<-|Hc]; [eauto|]). contradiction.
Qed.

Lemma span_digits_digits s :
  all_digits (fst (VerRe.span_digits s)) = true.
Proof.
  induction s as [|c s IH]; [reflexivity|].
  cbn [VerRe.span_digits]. destruct (PyStr.is_digit c) eqn:Hc; [|reflexivity].
  destruct (VerRe.span_digits s) as [d r]. cbn [fst all_digits] in *.
  now rewrite Hc, IH.
Qed.

Lemma span_numeral s c d r :
  VerRe.span_digits s = (String c d, r) -> numeral (String c d).
Proof.
  intros H. split; [discriminate|].
  pose proof (span_digits_digits s) as Hd. now rewrite H in Hd.
Qed.

Lemma match_at_ok s g rest : VerRe.match_at s = Some (g, rest) -> groups_ok g.
Proof.
  unfold VerRe.match_at.
  destruct (VerRe.span_digits s) as [[|c1 ma] r0] eqn:E1; [discriminate|].
  destruct r0 as [|dot r1]; [discriminate|].
  destruct (Ascii.eqb_spec dot ".") as [->|Hdot].
  2:{ intros H. exfalso.
      destruct dot as [[] [] [] [] [] [] [] []]; try discriminate H.
      now apply Hdot. }
  destruct (VerRe.span_digits r1) as [[|c2 mi] r2] eqn:E2; [discriminate|].
  pose proof (span_numeral _ _ _ _ E1) as N1.
  pose proof (span_numeral _ _ _ _ E2) as N2.
  assert (Hnone : groups_ok (VerRe.mkGroups (String c1 ma) (String c2 mi) None))
    by (repeat split; try apply N1; try apply N2).
  destruct r2 as [|dot2 r3]; [intros [= <- <-]; exact Hnone|].
  destruct (Ascii.eqb_spec dot2 ".") as [->|Hdot2].
  2:{ intros H.
      destruct dot2 as [[] [] [] [] [] [] [] []];
        try (injection H as <- <-; exact Hnone).
      now exfalso; apply Hdot2. }
  destruct (VerRe.span_digits r3) as [[|c3 pa] r4] eqn:E3;
    intros [= <- <-]; [exact Hnone|].
  repeat split; try apply N1; try apply N2.
  - discriminate.
  - apply (span_numeral _ _ _ _ E3).
Qed.

Lemma scan_hits_ok fuel : forall s, Forall groups_ok (hits (VerRe.scan_fuel fuel s)).
Proof.
  induction fuel as [|fuel IH]; intros s; [constructor|].
  cbn [VerRe.scan_fuel]. destruct s as [|c s]; [constructor|].
  destruct (VerRe.match_at (String c s)) as [[g rest]|] eqn:E.
  - unfold hits. cbn [flat_map app]. constructor; [|apply IH].
    eapply match_at_ok, E.
  - apply IH.
Qed.

Lemma finditer_ok s : Forall groups_ok (VerRe.finditer s).
Proof. apply scan_hits_ok. Qed.

(** Without a match the scan returns the subject, character by character. *)
Lemma scan_no_hit fuel :
  forall s, (String.length s <= fuel)%nat ->
  hits (VerRe.scan_fuel fuel s) = [] ->
  lits (VerRe.scan_fuel fuel s) = list_ascii_of_string s.
Proof.
  induction fuel as [|fuel IH]; intros s Hlen Hh.
  - destruct s; [reflexivity | cbn in Hlen; lia].
  - cbn [VerRe.scan_fuel] in *. destruct s as [|c s]; [reflexivity|].
    destruct (VerRe.match_at (String c s)) as [[g rest]|]; [discriminate Hh|].
    unfold lits. cbn [flat_map app list_ascii_of_string]. f_equal.
    apply IH; [cbn in Hlen; lia | exact Hh].
Qed.

Lemma base_no_match s : VerRe.finditer s = [] -> base s = s.
Proof.
  intros H. unfold base, VerRe.sub_empty.
  change (flat_map _ (VerRe.scan s)) with (lits (VerRe.scan s)).
  unfold VerRe.scan. rewrite scan_no_hit; auto.
  apply string_of_list_ascii_of_string.
Qed.

(** The fuel of the scan, the length of the subject, is enough: more fuel
    gives the same pieces. *)

Lemma span_digits_length s :
  String.length s
  = (String.length (fst (VerRe.span_digits s))
     + String.length (snd (VerRe.span_digits s)))%nat.
Proof.
  induction s as [|c s IH]; [reflexivity|].
  cbn [VerRe.span_digits]. destruct (PyStr.is_digit c); [|reflexivity].
  destruct (VerRe.span_digits s) as [d r]. cbn [fst snd String.length] in *.
  now rewrite IH.
Qed.

Lemma match_at_shorter s g rest :
  VerRe.match_at s = Some (g, rest) ->
  (String.length rest < String.length s)%nat.
Proof.
  unfold VerRe.match_at.
  pose proof (span_digits_length s) as L0.
  destruct (VerRe.span_digits s) as [[|c1 ma] r0]; [discriminate|].
  destruct r0 as [|dot r1]; [discriminate|].
  cbn [fst snd String.length] in L0.
  pose proof (span_digits_length r1) as L1.
  destruct (VerRe.span_digits r1) as [[|c2 mi] r2];
    [destruct dot as [[] [] [] [] [] [] [] []]; discriminate|].
  cbn [fst snd String.length] in L1.
  assert (Hnone : forall g', Some (g', r2) = Some (g, rest) ->
                             (String.length rest < String.length s)%nat).
  { intros g' [= _ <-]. lia. }
  destruct r2 as [|dot2 r3];
    [destruct dot as [[] [] [] [] [] [] [] []]; try discriminate; apply Hnone|].
  pose proof (span_digits_length r3) as L2.
  destruct (VerRe.span_digits r3) as [[|c3 pa] r4];
    cbn [fst snd String.length] in L1, L2;
    destruct dot as [[] [] [] [] [] [] [] []]; try discriminate;
    destruct dot2 as [[] [] [] [] [] [] [] []]; try apply Hnone;
    intros [= _ <-]; lia.
Qed.

Lemma scan_fuel_enough n :
  forall m s,
    (String.length s <= n)%nat -> (String.length s <= m)%nat ->
    VerRe.scan_fuel n s = VerRe.scan_fuel m s.
Proof.
  induction n as [|n IH]; intros m s Hn Hm.
  - destruct s; [now destruct m | cbn in Hn; lia].
  - destruct m as [|m]; [destruct s; [reflexivity | cbn in Hm; lia]|].
    cbn [VerRe.scan_fuel]. destruct s as [|c s]; [reflexivity|].
    cbn [String.length] in Hn, Hm.
    destruct (VerRe.match_at (String c s)) as [[g rest]|] eqn:E.
    + apply match_at_shorter in E. cbn [String.length] in E.
      f_equal. apply IH; lia.
    + f_equal. apply IH; lia.
Qed.

(** ** Facts about [sort_key] *)

Lemma triple_key_version g a b c :
  version_of g = Some (a, b, c) -> triple_key g = Ok (KTup (- a) (- b) (- c)).
Proof.
  unfold version_of, triple_key, neg_int.
  destruct (PyStr.int (VerRe.major g)); [|discriminate].
  destruct (PyStr.int (VerRe.minor g)); [|discriminate].
  destruct (VerRe.patch g) as [p|].
  - destruct (PyStr.int p); [|discriminate]. now intros [= <- <- <-].
  - now intros [= <- <- <-].
Qed.

Lemma version_of_ok g : groups_ok g -> exists v, version_of g = Some v.
Proof.
  intros (Hma & Hmi & Hpa). unfold version_of.
  destruct (int_numeral _ Hma) as [a ->].
  destruct (int_numeral _ Hmi) as [b ->].
  destruct (VerRe.patch g) as [p|].
  - destruct (int_numeral _ Hpa) as [c ->]. eauto.
  - eauto.
Qed.

Lemma triple_keys_ok gs :
  Forall groups_ok gs ->
  exists ts, rmap triple_key gs = Ok ts /\ Forall is_tup ts
             /\ (gs = [] -> ts = [])
             /\ forall g gs', gs = g :: gs' ->
                  exists t ts', ts = t :: ts' /\ triple_key g = Ok t.
Proof.
  induction 1 as [|g gs Hg _ (ts & Hts & Htup & _)].
  - exists []. repeat split; auto. discriminate.
  - destruct (version_of_ok g Hg) as [[[a b] c] Hv].
    pose proof (triple_key_version _ _ _ _ Hv) as Hk.
    exists (KTup (- a) (- b) (- c) :: ts). cbn [rmap]. rewrite Hk, Hts.
    repeat split.
    + constructor; [exact I | exact Htup].
    + discriminate.
    + intros g0 gs0 [= <- <-]. eauto.
Qed.

(** On a non-empty string [sort_key] returns: the head, then one triple per
    match. *)
Lemma sort_key_shape s :
  s <> EmptyString ->
  exists ts, rmap triple_key (VerRe.finditer s) = Ok ts
             /\ Forall is_tup ts
             /\ sort_key s = Ok (key_head s ++ ts)%list
             /\ key_of s = (key_head s ++ ts)%list.
Proof.
  intros Hne. destruct s as [|c s]; [contradiction|].
  destruct (triple_keys_ok _ (finditer_ok (String c s))) as (ts & Hts & Htup & _).
  exists ts.
  assert (Hk : sort_key (String c s) = Ok (key_head (String c s) ++ ts)%list).
  { unfold sort_key, key_head, leading_digit, base. rewrite Hts. reflexivity. }
  repeat split; auto. unfold key_of. now rewrite Hk.
Qed.

Lemma tuples_comparable ts1 :
  Forall is_tup ts1 -> forall ts2, Forall is_tup ts2 ->
  exists b, key_lt ts1 ts2 = Ok b.
Proof.
  induction 1 as [|x ts1 Hx _ IH]; intros ts2 H2.
  - destruct ts2; cbn; eauto.
  - destruct H2 as [|y ts2 Hy H2]; [cbn; eauto|].
    cbn [key_lt]. destruct (kelem_eqb x y); [now apply IH|].
    destruct x, y; try contradiction. cbn. eauto.
Qed.

(** Python compares the keys of two non-empty strings without a
    [TypeError], and as the total order does. *)
Lemma keys_comparable s1 s2 :
  s1 <> EmptyString -> s2 <> EmptyString ->
  key_lt (key_of s1) (key_of s2) = Ok (key_before s1 s2).
Proof.
  intros H1 H2.
  destruct (sort_key_shape s1 H1) as (ts1 & _ & T1 & _ & K1).
  destruct (sort_key_shape s2 H2) as (ts2 & _ & T2 & _ & K2).
  assert (Hex : exists b, key_lt (key_of s1) (key_of s2) = Ok b).
  { rewrite K1, K2. unfold key_head.
    destruct (tuples_comparable ts1 T1 ts2 T2) as [b Hb].
    destruct (leading_digit s1), (leading_digit s2); cbn [app key_lt kelem_eqb];
      try (cbn; eauto; fail).
    change (1 =? 1) with true. cbv iota.
    destruct (String.eqb (base s1) (base s2)); cbn [kelem_lt]; eauto. }
  destruct Hex as [b Hb]. rewrite Hb. f_equal.
  apply key_lt_cmp, Hb.
Qed.

Lemma decorate_keys names :
  Forall (fun s => s <> EmptyString) names ->
  rmap (fun x => (k <- sort_key x ;; Ok (k, x))%res) names
  = Ok (map (fun s => (key_of s, s)) names).
Proof.
  induction 1 as [|s names Hs _ IH]; [reflexivity|].
  cbn [rmap map]. rewrite IH.
  destruct (sort_key_shape s Hs) as (ts & _ & _ & Hk & Hk').
  rewrite Hk' , Hk. reflexivity.
Qed.

(** The sorted list of versions is the stable insertion sort in the total
    order of the keys. *)
Lemma get_pyenv_versions_isort names :
  Forall (fun s => s <> EmptyString) names ->
  get_pyenv_versions names = Ok (isort key_before names).
Proof.
  intros Hne. unfold get_pyenv_versions, sorted_by.
  rewrite (decorate_keys _ Hne). cbn [rbind].
  rewrite (rsort_isort key_cmp key_of key_lt (fun s => (key_of s, s)))
    by (auto; intros x y Hx Hy; rewrite Forall_forall in Hne;
        apply keys_comparable; auto).
  cbn [rbind]. f_equal.
  rewrite map_map. cbn [snd]. apply map_id.
Qed.

(** Where it returns, it never places a string after one whose key is
    larger. *)
Lemma sorted_versions_ordered names out x y :
  Forall (fun s => s <> EmptyString) names ->
  get_pyenv_versions names = Ok out ->
  before x y out -> key_before y x = false.
Proof.
  intros Hne Hout Hb. rewrite (get_pyenv_versions_isort _ Hne) in Hout.
  injection Hout as <-.
  exact (isort_before key_cmp key_total key_of names x y Hb).
Qed.

Lemma key_of_first_version s a b c :
  s <> EmptyString ->
  first_version s = Some (a, b, c) ->
  exists ts, key_of s = (key_head s ++ KTup (- a) (- b) (- c) :: ts)%list.
Proof.
  intros Hne Hv. unfold first_version in Hv.
  destruct (sort_key_shape s Hne) as (ts & Hts & _ & _ & Hk).
  destruct (VerRe.finditer s) as [|g gs]; [discriminate|].
  cbn [rmap] in Hts. rewrite (triple_key_version _ _ _ _ Hv) in Hts.
  cbn [rbind] in Hts. destruct (rmap triple_key gs) as [ts'|]; [|discriminate].
  injection Hts as <-. eauto.
Qed.

Lemma key_of_match s :
  s <> EmptyString ->
  VerRe.finditer s <> [] ->
  exists t ts, key_of s = (key_head s ++ t :: ts)%list.
Proof.
  intros Hne Hm.
  destruct (sort_key_shape s Hne) as (ts & Hts & _ & _ & Hk).
  destruct (triple_keys_ok _ (finditer_ok s)) as (ts' & Hts' & _ & _ & Hcons).
  rewrite Hts in Hts'. injection Hts' as <-.
  destruct (VerRe.finditer s) as [|g gs]; [contradiction|].
  destruct (Hcons g gs eq_refl) as (t & ts' & -> & _). eauto.
Qed.

Lemma key_of_no_match s :
  s <> EmptyString ->
  VerRe.finditer s = [] ->
  sort_key s = Ok (key_head s) /\ key_of s = key_head s.
Proof.
  intros Hne Hm.
  destruct (sort_key_shape s Hne) as (ts & Hts & _ & Hk & Hk').
  rewrite Hm in Hts. injection Hts as <-.
  rewrite app_nil_r in *. auto.
Qed.

Lemma version_lt_cmp a b c a' b' c' :
  version_lt (a, b, c) (a', b', c') ->
  kelem_cmp (KTup (- a') (- b') (- c')) (KTup (- a) (- b) (- c)) = Lt.
Proof.
  cbn [version_lt kelem_cmp lex_cmp]. intros H.
  destruct (Z.compare_spec (- a') (- a)); try lia; [|reflexivity].
  destruct (Z.compare_spec (- b') (- b)); try lia; [|reflexivity].
  destruct (Z.compare_spec (- c') (- c)); try lia. reflexivity.
Qed.

Lemma before_in {A} (x y : A) l : before x y l -> In x l /\ In y l.
Proof.
  intros (l1 & l2 & l3 & ->). split; apply in_or_app; right.
  - now left.
  - right. apply in_or_app. right. now left.
Qed.

Lemma sorted_versions_nonempty names out x :
  Forall (fun s => s <> EmptyString) names ->
  get_pyenv_versions names = Ok out ->
  In x out -> x <> EmptyString.
Proof.
  intros Hne Hout Hx. rewrite (get_pyenv_versions_isort _ Hne) in Hout.
  injection Hout as <-. rewrite Forall_forall in Hne. apply Hne.
  eapply Permutation_in; [symmetry; exact (isort_perm key_cmp key_of names) | exact Hx].
Qed.

(** The six orders in which three versions can be listed. *)
Lemma example_sorted :
  Forall (fun names => get_pyenv_versions names = Ok ["3.10"; "3.9.1"; "3.9"])
    [ ["3.10"; "3.9.1"; "3.9"]; ["3.10"; "3.9"; "3.9.1"];
      ["3.9.1"; "3.10"; "3.9"]; ["3.9.1"; "3.9"; "3.10"];
      ["3.9"; "3.10"; "3.9.1"]; ["3.9"; "3.9.1"; "3.10"] ].
Proof. repeat constructor. Qed.

(** C4: on non-empty names the sort returns a permutation in which no
    string with a leading digit comes after one without, and in which,
    among the strings of one base within each of the two groups, none comes
    after a string of a lower version, the version being read from the
    first match with a missing patch as -1; the three versions of the
    example come out as 3.10, 3.9.1, 3.9 from each of their orders. *)
Theorem versions_sorted_by_group_then_version :
  (forall names,
      Forall (fun s => s <> EmptyString) names ->
      exists out,
        get_pyenv_versions names = Ok out
        /\ Permutation names out
        /\ (forall x y,
               before x y out -> leading_digit y = true -> leading_digit x = true)
        /\ (forall x y vx vy,
               before x y out ->
               leading_digit x = leading_digit y ->
               base x = base y ->
               first_version x = Some vx ->
               first_version y = Some vy ->
               ~ version_lt vx vy))
  /\ Forall (fun names => get_pyenv_versions names = Ok ["3.10"; "3.9.1"; "3.9"])
       [ ["3.10"; "3.9.1"; "3.9"]; ["3.10"; "3.9"; "3.9.1"];
         ["3.9.1"; "3.10"; "3.9"]; ["3.9.1"; "3.9"; "3.10"];
         ["3.9"; "3.10"; "3.9.1"]; ["3.9"; "3.9.1"; "3.10"] ].
Proof.
  split; [|exact example_sorted].
  intros names Hne. exists (isort key_before names).
  pose proof (get_pyenv_versions_isort _ Hne) as Hout.
  split; [exact Hout|]. split; [exact (isort_perm key_cmp key_of names)|]. split.
  - intros x y Hb Hy.
    pose proof (sorted_versions_ordered _ _ _ _ Hne Hout Hb) as Hord.
    destruct (before_in _ _ _ Hb) as [Hx' Hy'].
    pose proof (sorted_versions_nonempty _ _ _ Hne Hout Hx') as Nx.
    pose proof (sorted_versions_nonempty _ _ _ Hne Hout Hy') as Ny.
    destruct (sort_key_shape x Nx) as (tx & _ & _ & _ & Kx).
    destruct (sort_key_shape y Ny) as (ty & _ & _ & _ & Ky).
    destruct (leading_digit x) eqn:Lx; [reflexivity|].
    unfold key_before in Hord. rewrite Kx, Ky in Hord.
    unfold key_head in Hord. rewrite Lx, Hy in Hord. discriminate Hord.
  - intros x y [[ax bx] cx] [[ay by'] cy] Hb Hg Hbase Hvx Hvy Hlt.
    pose proof (sorted_versions_ordered _ _ _ _ Hne Hout Hb) as Hord.
    destruct (before_in _ _ _ Hb) as [Hx' Hy'].
    pose proof (sorted_versions_nonempty _ _ _ Hne Hout Hx') as Nx.
    pose proof (sorted_versions_nonempty _ _ _ Hne Hout Hy') as Ny.
    destruct (key_of_first_version _ _ _ _ Nx Hvx) as (tx & Kx).
    destruct (key_of_first_version _ _ _ _ Ny Hvy) as (ty & Ky).
    assert (Hh : key_head y = key_head x).
    { unfold key_head. now rewrite Hg, Hbase. }
    unfold key_before in Hord. rewrite Kx, Ky, Hh in Hord.
    unfold key_cmp in Hord. rewrite (lex_cmp_app _ kelem_total) in Hord.
    cbn [lex_cmp] in Hord. rewrite (version_lt_cmp _ _ _ _ _ _ Hlt) in Hord.
    discriminate Hord.
Qed.

(** C5, amended: when the regex finds no match in a non-empty string, its
    key is the group marker alone if the first character is a digit, and the
    group marker and the string itself, which is its base, otherwise; and
    the sort never places it after a string of the same group and base in
    which the regex finds a match: it sorts before them. *)
Theorem no_match_sorts_first s :
  s <> EmptyString ->
  VerRe.finditer s = [] ->
  base s = s
  /\ sort_key s = Ok (if leading_digit s then [KInt 0] else [KInt 1; KStr s])
  /\ forall names out t,
       Forall (fun s => s <> EmptyString) names ->
       get_pyenv_versions names = Ok out ->
       leading_digit t = leading_digit s ->
       base t = base s ->
       VerRe.finditer t <> [] ->
       ~ before t s out.
Proof.
  intros Hne Hm.
  pose proof (base_no_match s Hm) as Hbase.
  destruct (key_of_no_match s Hne Hm) as [Hk Hk'].
  split; [exact Hbase|]. split.
  - rewrite Hk. unfold key_head. now rewrite Hbase.
  - intros names out t Hnames Hout Hg Hb Hmt Hbefore.
    pose proof (sorted_versions_ordered _ _ _ _ Hnames Hout Hbefore) as Hord.
    destruct (before_in _ _ _ Hbefore) as [Ht' _].
    pose proof (sorted_versions_nonempty _ _ _ Hnames Hout Ht') as Nt.
    destruct (key_of_match t Nt Hmt) as (k & ks & Kt).
    assert (Hh : key_head t = key_head s).
    { unfold key_head. now rewrite Hg, Hb. }
    unfold key_before in Hord. rewrite Hk', Kt, Hh in Hord.
    unfold key_cmp in Hord. rewrite (lex_cmp_prefix _ kelem_total) in Hord.
    discriminate Hord.
Qed.

Lemma before_pair {A} (x y a b : A) : before x y [a; b] -> x = a /\ y = b.
Proof.
  intros (l1 & l2 & l3 & H).
  destruct l1 as [|z1 l1]; cbn [app] in H.
  - injection H as <- H. destruct l2 as [|z2 l2]; cbn [app] in H.
    + now injection H as <- _.
    + injection H as _ H. now destruct l2.
  - injection H as _ H. destruct l1 as [|z2 l1]; cbn [app] in H.
    + injection H as _ H. now destruct l2.
    + injection H as _ H. now destruct l1.
Qed.

(** A string without a match comes first among the strings of its group and
    base, and with a leading digit its key holds no base. *)
Lemma no_match_not_after :
  VerRe.finditer "pypy" = []
  /\ VerRe.finditer "pypy3.9" <> []
  /\ leading_digit "pypy3.9" = leading_digit "pypy"
  /\ base "pypy3.9" = base "pypy"
  /\ get_pyenv_versions ["pypy3.9"; "pypy"] = Ok ["pypy"; "pypy3.9"]
  /\ before "pypy" "pypy3.9" ["pypy"; "pypy3.9"]
  /\ ~ before "pypy3.9" "pypy" ["pypy"; "pypy3.9"]
  /\ VerRe.finditer "3" = []
  /\ sort_key "3" = Ok [KInt 0].
Proof.
  repeat split; try reflexivity.
  - discriminate.
  - exists [], [], []. reflexivity.
  - intros H. apply before_pair in H as [H _]. discriminate H.
Qed.

(** ** Facts about [os.walk] and the requirements locator *)

Section WalkFacts.

Context {S : Type}.
Variable body : string -> list string -> list string -> S -> S * list string.

Lemma walk_node_dir top n es st :
  walk_node body top (Dir n es) st
  = let (st1, dnames) := body top (dir_names es) (file_names es) st in
    fold_left (visit_step body top es) dnames st1.
Proof.
  cbn [walk_node].
  destruct (body top (dir_names es) (file_names es) st) as [st1 dnames].
  revert st1. induction dnames as [|d dnames IH]; intros st1; [reflexivity|].
  cbn [fold_left]. rewrite <- IH. f_equal. clear IH.
  unfold visit_step, find_entry.
  induction es as [|e' l IHl]; [reflexivity|].
  cbn [find]. destruct (String.eqb (entry_name e') d); [reflexivity|].
  apply IHl.
Qed.

(** The name of the directory at the top plays no part. *)
Lemma walk_node_name top n n' es st :
  walk_node body top (Dir n es) st = walk_node body top (Dir n' es) st.
Proof. reflexivity. Qed.

End WalkFacts.

Lemma collect_requirements root l :
  forall reqs,
    fold_left
      (fun reqs fname =>
         if negb (PyStr.startswith fname "requirements")
            || negb (PyStr.endswith fname ".txt")
         then reqs
         else (reqs ++ [OsPath.join root fname])%list)
      l reqs
    = (reqs ++ map (OsPath.join root) (filter is_requirements l))%list.
Proof.
  induction l as [|f l IH]; intros reqs; cbn [fold_left filter map].
  - now rewrite app_nil_r.
  - rewrite IH. unfold is_requirements at 2.
    destruct (PyStr.startswith f "requirements"), (PyStr.endswith f ".txt");
      cbn [negb orb andb map]; try reflexivity.
    now rewrite <- app_assoc.
Qed.

Lemma requirements_body_eq top es reqs :
  requirements_body top (dir_names es) (file_names es) reqs
  = ((reqs ++ own_requirements top es)%list,
     filter (fun d => negb (dot_name d)) (dir_names es)).
Proof.
  unfold requirements_body, own_requirements.
  now rewrite collect_requirements.
Qed.

Lemma fold_visit top es names :
  (forall d e', In d names -> find_entry d es = Some e' ->
     forall st, walk_node requirements_body (OsPath.join top d) e' st
                = (st ++ walk_node requirements_body (OsPath.join top d) e' [])%list) ->
  forall acc,
    fold_left (visit_step requirements_body top es) names acc
    = (acc ++ flat_map (visit_step requirements_body top es []) names)%list.
Proof.
  induction names as [|d names IH]; intros H acc; cbn [fold_left flat_map].
  - now rewrite app_nil_r.
  - rewrite IH by (intros; eapply H; eauto; now right).
    rewrite app_assoc. f_equal.
    unfold visit_step. destruct (find_entry d es) as [e'|] eqn:E.
    + apply (H d e'); [now left | exact E].
    + now rewrite app_nil_r.
Qed.

(** The walk only appends to the list it is given. *)
Lemma walk_appends e :
  forall top st,
    walk_node requirements_body top e st
    = (st ++ walk_node requirements_body top e [])%list.
Proof.
  induction e as [n|n|n es IH] using entry_tree_ind; intros top st;
    try (cbn [walk_node]; now rewrite app_nil_r).
  rewrite !walk_node_dir, !requirements_body_eq.
  rewrite Forall_forall in IH.
  assert (Hch : forall names d e',
             In d names -> find_entry d es = Some e' ->
             forall st, walk_node requirements_body (OsPath.join top d) e' st
                        = (st ++ walk_node requirements_body
                                   (OsPath.join top d) e' [])%list).
  { intros names d e' _ Hf. apply IH.
    unfold find_entry in Hf. now apply find_some in Hf as [Hin _]. }
  rewrite (fold_visit top es _ (Hch _) (st ++ own_requirements top es)%list).
  rewrite (fold_visit top es _ (Hch _) ([] ++ own_requirements top es)%list).
  cbn [app]. now rewrite app_assoc.
Qed.

Lemma locate_visits top es :
  locate_requirements top es
  = (own_requirements top es
     ++ flat_map (visit_step requirements_body top es [])
          (filter (fun d => negb (dot_name d)) (dir_names es)))%list.
Proof.
  unfold locate_requirements, os_walk.
  rewrite walk_node_dir, requirements_body_eq.
  apply fold_visit. intros d e' _ _ st. apply walk_appends.
Qed.

Lemma nodupb_not_in x l :
  existsb (String.eqb x) l = false -> forall y, In y l -> String.eqb x y = false.
Proof.
  induction l as [|z l IH]; intros H y Hy; [contradiction|].
  cbn [existsb] in H. apply orb_false_elim in H as [Hz Hl].
  destruct Hy as [<-|Hy]; [exact Hz | now apply IH].
Qed.

Lemma find_entry_self es :
  nodupb (map entry_name es) = true ->
  forall e, In e es -> find_entry (entry_name e) es = Some e.
Proof.
  induction es as [|e0 es IH]; intros Hnd e He; [contradiction|].
  cbn [map nodupb] in Hnd. apply andb_prop in Hnd as [Hx Hnd].
  unfold find_entry. cbn [find].
  destruct He as [<-|He].
  - now rewrite String.eqb_refl.
  - apply negb_true_iff in Hx.
    rewrite (nodupb_not_in _ _ Hx (entry_name e)) by now apply in_map.
    now apply IH.
Qed.

Lemma visits_walked top es l :
  (forall e, In e l -> find_entry (entry_name e) es = Some e) ->
  flat_map (visit_step requirements_body top es [])
    (filter (fun d => negb (dot_name d)) (dir_names l))
  = flat_map (fun p => locate_requirements (OsPath.join top (fst p)) (snd p))
      (walked l).
Proof.
  induction l as [|e l IH]; intros H; [reflexivity|].
  assert (IH' := IH (fun e' He' => H e' (or_intror He'))).
  pose proof (H e (or_introl eq_refl)) as He.
  unfold dir_names, walked in *.
  destruct e as [n|n ch|n]; cbn [filter is_dir negb map flat_map entry_name] in *.
  - exact IH'.
  - destruct (dot_name n); cbn [negb flat_map app]; [exact IH'|].
    rewrite IH'. f_equal.
    unfold visit_step. rewrite He. reflexivity.
  - destruct (dot_name n); cbn [negb flat_map app]; [exact IH'|].
    rewrite IH'. unfold visit_step. rewrite He. reflexivity.
Qed.

(** The order of the walk: the requirements files of the directory, then
    the walk of each of its subdirectories that is real and has no leading
    dot, in listing order. *)
Lemma locate_requirements_eq top es :
  nodupb (map entry_name es) = true ->
  locate_requirements top es
  = (own_requirements top es
     ++ flat_map (fun p => locate_requirements (OsPath.join top (fst p)) (snd p))
          (walked es))%list.
Proof.
  intros Hnd. rewrite locate_visits. f_equal.
  apply visits_walked. now apply find_entry_self.
Qed.

Lemma wf_dir_parts es :
  wf_dir es = true ->
  nodupb (map entry_name es) = true
  /\ forall n ch, In (Dir n ch) es -> wf_dir ch = true.
Proof.
  unfold wf_dir. intros H. apply andb_prop in H as [Hnd Hall].
  split; [exact Hnd|]. intros n ch Hin.
  rewrite forallb_forall in Hall. exact (Hall _ Hin).
Qed.

Lemma in_walked n ch es :
  In (n, ch) (walked es) <-> In (Dir n ch) es /\ dot_name n = false.
Proof.
  unfold walked. rewrite in_flat_map. split.
  - intros (e & He & Hin). destruct e as [m|m c|m]; try contradiction.
    destruct (dot_name m) eqn:Hd; [contradiction|].
    destruct Hin as [[= <- <-]|[]]. auto.
  - intros [Hin Hd]. exists (Dir n ch). split; [exact Hin|].
    rewrite Hd. now left.
Qed.

Lemma reach_below top es n ch d ds :
  In (Dir n ch) es -> dot_name n = false ->
  reach (OsPath.join top n) ch d ds -> reach top es d ds.
Proof.
  intros Hin Hd Hr. induction Hr as [|d ds m c _ IH Hm Hdm].
  - now apply (reach_sub _ _ top es n ch (reach_top top es)).
  - now apply (reach_sub _ _ _ _ _ _ IH).
Qed.

Lemma in_own_requirements top es p :
  In p (own_requirements top es)
  <-> exists f, In f (file_names es) /\ is_requirements f = true
                /\ p = OsPath.join top f.
Proof.
  unfold own_requirements, sorted_str. rewrite in_map_iff. split.
  - intros (f & <- & Hf). apply filter_In in Hf as [Hin Hreq].
    exists f. repeat split; auto.
    eapply Permutation_in; [symmetry; exact (isort_perm String.compare id _)|].
    exact Hin.
  - intros (f & Hin & Hreq & ->). exists f. split; [reflexivity|].
    apply filter_In. split; [|exact Hreq].
    eapply Permutation_in; [exact (isort_perm String.compare id _) | exact Hin].
Qed.

(** Every collected path is a requirements file of a reached directory. *)
Lemma located_is_reached e :
  match e with
  | Dir _ es =>
      wf_dir es = true ->
      forall top p,
        In p (locate_requirements top es) ->
        exists d ds f,
          reach top es d ds /\ In f (file_names ds)
          /\ is_requirements f = true /\ p = OsPath.join d f
  | File _ | DirLink _ => True
  end.
Proof.
  induction e as [n|n|n es IH] using entry_tree_ind; try exact I.
  intros Hwf top p Hp.
  destruct (wf_dir_parts _ Hwf) as [Hnd Hsub].
  rewrite (locate_requirements_eq _ _ Hnd) in Hp.
  apply in_app_or in Hp as [Hp|Hp].
  - apply in_own_requirements in Hp as (f & Hf & Hreq & ->).
    exists top, es, f. repeat split; auto. constructor.
  - apply in_flat_map in Hp as ([m ch] & Hw & Hp). cbn [fst snd] in Hp.
    apply in_walked in Hw as [Hin Hd].
    rewrite Forall_forall in IH.
    destruct (IH _ Hin (Hsub _ _ Hin) _ _ Hp) as (d & ds & f & Hr & Hf & Hreq & ->).
    exists d, ds, f. repeat split; auto.
    now apply (reach_below top es m ch).
Qed.

(** Every reached directory is well formed and its paths are collected. *)
Lemma reached_is_located top es d ds :
  wf_dir es = true ->
  reach top es d ds ->
  wf_dir ds = true
  /\ forall p, In p (locate_requirements d ds) -> In p (locate_requirements top es).
Proof.
  intros Hwf Hr. induction Hr as [|d ds n ch _ [Hwd Hincl] Hin Hd].
  - auto.
  - destruct (wf_dir_parts _ Hwd) as [Hnd Hsub].
    split; [exact (Hsub _ _ Hin)|].
    intros p Hp. apply Hincl.
    rewrite (locate_requirements_eq _ _ Hnd). apply in_or_app. right.
    apply in_flat_map. exists (n, ch). split; [|exact Hp].
    now apply in_walked.
Qed.

Lemma StronglySorted_filter {A} (R : A -> A -> Prop) (f : A -> bool) l :
  StronglySorted R l -> StronglySorted R (filter f l).
Proof.
  induction 1 as [|x l Hs IH Hx]; cbn [filter]; [constructor|].
  destruct (f x); [|exact IH].
  constructor; [exact IH|].
  rewrite Forall_forall in *. intros y Hy.
  apply Hx. now apply filter_In in Hy as [Hy _].
Qed.

(** C9: in a well-formed tree the locator collects, for each directory it
    walks, the files whose name starts with "requirements" and ends with
    ".txt", in the order of their names, then the same for each of its
    subdirectories in listing order, leaving out the subdirectories whose
    name starts with a dot and the links to directories; so a path is
    collected exactly when it is such a file of a directory reached from the
    working directory through real directories without a leading dot. *)
Theorem requirements_located CWD es :
  wf_dir es = true ->
  locate_requirements CWD es
  = (own_requirements CWD es
     ++ flat_map (fun p => locate_requirements (OsPath.join CWD (fst p)) (snd p))
          (walked es))%list
  /\ (forall n ch, In (n, ch) (walked es) ->
        In (Dir n ch) es /\ PyStr.startswith n "." = false /\ wf_dir ch = true)
  /\ (exists names,
         own_requirements CWD es = map (OsPath.join CWD) names
         /\ StronglySorted (fun a b => PyStr.lt b a = false) names
         /\ forall f, In f names
                      <-> In f (file_names es)
                          /\ PyStr.startswith f "requirements" = true
                          /\ PyStr.endswith f ".txt" = true)
  /\ (forall p,
         In p (locate_requirements CWD es)
         <-> exists d ds f,
               reach CWD es d ds /\ In f (file_names ds)
               /\ PyStr.startswith f "requirements" = true
               /\ PyStr.endswith f ".txt" = true
               /\ p = OsPath.join d f).
Proof.
  intros Hwf. destruct (wf_dir_parts _ Hwf) as [Hnd Hsub].
  assert (Hreq : forall f, is_requirements f = true
                           <-> PyStr.startswith f "requirements" = true
                               /\ PyStr.endswith f ".txt" = true).
  { intros f. unfold is_requirements. apply andb_true_iff. }
  split; [now apply locate_requirements_eq|]. split; [|split].
  - intros n ch Hw. apply in_walked in Hw as [Hin Hd].
    repeat split; auto. exact (Hsub _ _ Hin).
  - exists (filter is_requirements (sorted_str (file_names es))).
    split; [reflexivity|]. split.
    + apply StronglySorted_filter.
      exact (isort_sorted String.compare string_total id (file_names es)).
    + intros f. rewrite filter_In, Hreq. split.
      * intros [Hin Hf]. split; [|exact Hf].
        eapply Permutation_in; [symmetry; exact (isort_perm String.compare id _)|].
        exact Hin.
      * intros [Hin Hf]. split; [|exact Hf].
        eapply Permutation_in; [exact (isort_perm String.compare id _) | exact Hin].
  - intros p. split.
    + intros Hp.
      destruct (located_is_reached (Dir CWD es) Hwf CWD p Hp)
        as (d & ds & f & Hr & Hf & Hq & ->).
      apply Hreq in Hq as [Hs He]. exists d, ds, f. auto.
    + intros (d & ds & f & Hr & Hf & Hs & He & ->).
      destruct (reached_is_located _ _ _ _ Hwf Hr) as [Hwd Hincl].
      apply Hincl.
      destruct (wf_dir_parts _ Hwd) as [Hnd' _].
      rewrite (locate_requirements_eq _ _ Hnd'). apply in_or_app. left.
      apply in_own_requirements. exists f. repeat split; auto.
      apply Hreq. auto.
Qed.

(** ** The selection loop of the picker *)

Lemma picker_loop_single d s allow_quit lines p unread evs :
  picker_loop d s false false allow_quit lines = (Ok p, unread, evs) ->
  p = Quit \/ exists o, p = One o.
Proof.
  revert p unread evs. induction lines as [|line rest IH]; intros p unread evs.
  - discriminate.
  - cbn [picker_loop negb].
    destruct (picker_loop d s false false allow_quit rest) as [[r u] e].
    repeat match goal with
           | |- context [if ?b then _ else _] => destruct b
           | |- context [match ?x with inl _ => _ | inr _ => _ end] => destruct x
           | |- context [match ?x with [] => _ | _ :: _ => _ end] => destruct x
           end; intros H; inversion H; subst; eauto.
Qed.

(** With [nargs=1] the picker returns the quit signal or one option. *)
Lemma picker_single_shape {W} options prompt sep allow_quit (w w' : world W) p :
  picker options prompt sep (NInt 1) allow_quit w = (Ok p, w') ->
  p = Quit \/ exists o, p = One o.
Proof.
  unfold picker. destruct (dict_max (enumerate 1 options)); [|discriminate].
  change (multioption (NInt 1)) with false.
  change (allows_empty (NInt 1)) with false.
  destruct (picker_loop _ _ _ _ _ _) as [[r u] e] eqn:E.
  intros [= -> <-]. eapply picker_loop_single, E.
Qed.

(** C1: with two options and [nargs="+"], the response "1,2", whose tokens
    are the indices of the two options, is turned down as no integer and
    the prompt comes again; the next response "2" is accepted.  The
    selection loop reads the whole response in each round: its outcome is
    the same for any two token lists of one length. *)
Theorem picker_rejects_valid_token_list :
  (exists s,
      picker ["a"; "b"] "Select an option:" ". " (NStr "+") false
        (mkWorld ["1,2"; "2"] tt [])
      = (Ok (Many ["b"]),
         mkWorld [] tt
           [Prompt s;
            Print "Response '1,2' is not a valid command or integer";
            Prompt s]))
  /\ tokens true "1,2" = ["1"; "2"]
  /\ (forall d response rs rs' out,
         List.length rs = List.length rs' ->
         select d response rs out = select d response rs' out).
Proof.
  split; [eexists; reflexivity|]. split; [reflexivity|].
  intros d response. apply select_ignores_tokens.
Qed.

(** ** The theorems at sample inputs *)

Lemma creation_failure_aborts_witness :
  (Sample.run_failing [Sample.pyenv; "virtualenv"; "3.9.1"; "env"] 0%nat
   = (mkCompleted 2 "" "pyenv: version not installed", 1%nat)
   /\ returncode (mkCompleted 2 "" "pyenv: version not installed") <> 0)
  /\ exists evs,
       create_environment Sample.run_failing Sample.pyenv Sample.pip_of
         "3.9.1" "env" (Some [Some "requirements.txt"]) (Sample.start [])
       = (Raise (RuntimeError
                   (creation_error
                      (mkCompleted 2 "" "pyenv: version not installed"))),
          mkWorld [] 1%nat evs)
       /\ runs evs = [[Sample.pyenv; "virtualenv"; "3.9.1"; "env"]].
Proof.
  split; [split; [reflexivity | cbn; lia]|].
  destruct (creation_failure_aborts Sample.run_failing Sample.pyenv Sample.pip_of
              "3.9.1" "env" (Some [Some "requirements.txt"]) (Sample.start [])
              (mkCompleted 2 "" "pyenv: version not installed") 1%nat
              eq_refl ltac:(cbn; lia))
    as (evs & Hrun & Hruns & _).
  exists evs. split; [exact Hrun | exact Hruns].
Defined.

Lemma requirements_all_attempted_witness :
  exists evs,
    create_environment Sample.run_flaky Sample.pyenv Sample.pip_of
      "3.9.1" "env" (Some [Some "bad.txt"; Some "ok.txt"]) (Sample.start [])
    = (Ok tt, mkWorld [] 5%nat evs)
    /\ runs evs
       = [[Sample.pyenv; "virtualenv"; "3.9.1"; "env"];
          [Sample.pyenv; "local"; "env"];
          [Sample.pip_of "env"; "install"; "-U"; "pip"];
          [Sample.pip_of "env"; "install"; "-r"; "bad.txt"];
          [Sample.pip_of "env"; "install"; "-r"; "ok.txt"]]
    /\ warnings evs
       = [install_warning "bad.txt"
            (mkCompleted 1 "" "No matching distribution")].
Proof.
  destruct (requirements_all_attempted Sample.run_flaky Sample.pyenv
              Sample.pip_of "3.9.1" "env" ["bad.txt"; "ok.txt"] (Sample.start [])
              (mkCompleted 0 "done" "") 1%nat
              (mkCompleted 0 "done" "") 2%nat
              (mkCompleted 0 "done" "") 3%nat
              eq_refl eq_refl eq_refl eq_refl eq_refl eq_refl)
    as (evs & Hrun & Hruns & _ & Hwarn & _).
  exists evs. split; [exact Hrun | split; [exact Hruns | exact Hwarn]].
Defined.

Lemma filter_versions_selects_witness :
  get_pyenv_versions Sample.installed = Ok ["3.10.2"; "3.9.1"; "pypy3.9-7.3.9"]
  /\ filter_versions string Sample.literal_compile Sample.literal_search
       Sample.installed "/3.9"
     = Ok ["3.9.1"; "pypy3.9-7.3.9"]
  /\ filter_versions string Sample.literal_compile Sample.literal_search
       Sample.installed "3."
     = Ok ["3.10.2"; "3.9.1"]
  /\ filter_versions string Sample.literal_compile Sample.literal_search
       Sample.installed ""
     = Ok ["3.10.2"; "3.9.1"; "pypy3.9-7.3.9"].
Proof.
  destruct (filter_versions_selects Sample.literal_compile Sample.literal_search
              Sample.installed ["3.10.2"; "3.9.1"; "pypy3.9-7.3.9"] eq_refl)
    as (Hre & Hpre & Hall).
  split; [reflexivity|]. split; [|split].
  - exact (proj1 (Hre "3.9" "3.9" eq_refl)).
  - exact (proj1 (Hpre "3." eq_refl)).
  - exact Hall.
Defined.

Lemma quit_token_quits_witness :
  (exists s,
      picker ["3.10.2"; "3.9.1"] "Pick python version: " ". " (NStr "+") true
        (Sample.start ["1, Q"; "2"])
      = (Ok Quit, mkWorld ["2"] 0%nat [Prompt s]))
  /\ exit_status
       (fst (main Sample.run_flaky Sample.pyenv Sample.pip_of
               Sample.literal_compile Sample.literal_search "/home/me/project"
               Sample.installed Sample.project
               (mkNamespace "3" true "env" None) (Sample.start [" q "])))
     = 0.
Proof.
  destruct (@quit_token_quits nat Sample.run_flaky Sample.pyenv Sample.pip_of
              string Sample.literal_compile Sample.literal_search
              "/home/me/project") as [Hpick Hmain].
  split.
  - exact (Hpick "3.10.2" ["3.9.1"] "Pick python version: " ". " (NStr "+")
             "1, Q" ["2"] "Q" (Sample.start ["1, Q"; "2"])
             eq_refl (or_intror (or_introl eq_refl)) eq_refl).
  - exact (proj1 (proj2
             (Hmain Sample.installed Sample.project
                (mkNamespace "3" true "env" None) ["3.10.2"; "3.9.1"]
                (Sample.start [" q "])
                (snd (picker ["3.10.2"; "3.9.1"] "Pick python version: " ". "
                        (NInt 1) true (Sample.start [" q "])))
                eq_refl eq_refl eq_refl))).
Defined.

Lemma no_match_is_fatal_witness :
  filter_versions string Sample.literal_compile Sample.literal_search
    Sample.installed "2.7" = Ok []
  /\ main Sample.run_flaky Sample.pyenv Sample.pip_of
       Sample.literal_compile Sample.literal_search "/home/me/project"
       Sample.installed Sample.project
       (mkNamespace "2.7" false "env" None) (Sample.start [])
     = (Raise IndexError, Sample.start []).
Proof.
  split; [reflexivity|].
  destruct (no_match_is_fatal Sample.run_flaky Sample.pyenv Sample.pip_of
              Sample.literal_compile Sample.literal_search "/home/me/project"
              Sample.installed Sample.project
              (mkNamespace "2.7" false "env" None) (Sample.start []) eq_refl)
    as (e & _ & Hmain & _ & ->).
  exact Hmain.
Defined.

Lemma picker_empty_options_crash_witness :
  locate_requirements "/home/me/project" Sample.bare = []
  /\ main Sample.run_flaky Sample.pyenv Sample.pip_of
       Sample.literal_compile Sample.literal_search "/home/me/project"
       Sample.installed Sample.bare
       (mkNamespace "3.9" false "env" (Some [None])) (Sample.start [""])
     = (Raise (ValueError "max() arg is an empty sequence"), Sample.start [""]).
Proof.
  split; [reflexivity|].
  destruct (@picker_empty_options_crash nat Sample.run_flaky Sample.pyenv
              Sample.pip_of string Sample.literal_compile Sample.literal_search
              "/home/me/project") as (_ & _ & Hmain).
  exact (Hmain Sample.installed Sample.bare
           (mkNamespace "3.9" false "env" (Some [None])) "3.9.1" []
           (Sample.start [""]) eq_refl eq_refl eq_refl eq_refl).
Defined.

Lemma versions_sorted_witness :
  get_pyenv_versions ["pypy3.9-7.3.9"; "3.9.1"; "pypy3.10-7.3.12"; "3.10.2"]
  = Ok ["3.10.2"; "3.9.1"; "pypy3.10-7.3.12"; "pypy3.9-7.3.9"]
  /\ (forall x y,
         before x y ["3.10.2"; "3.9.1"; "pypy3.10-7.3.12"; "pypy3.9-7.3.9"] ->
         leading_digit y = true -> leading_digit x = true)
  /\ ~ version_lt (3, 10, -1) (3, 9, -1).
Proof.
  destruct (proj1 versions_sorted_by_group_then_version
              ["pypy3.9-7.3.9"; "3.9.1"; "pypy3.10-7.3.12"; "3.10.2"])
    as (out & Hout & _ & Hgroup & Hversion).
  - repeat constructor; discriminate.
  - assert (E : out = ["3.10.2"; "3.9.1"; "pypy3.10-7.3.12"; "pypy3.9-7.3.9"])
      by (vm_compute in Hout; injection Hout as <-; reflexivity).
    subst out. split; [reflexivity|]. split; [exact Hgroup|].
    apply (Hversion "pypy3.10-7.3.12" "pypy3.9-7.3.9" (3, 10, -1) (3, 9, -1));
      try reflexivity.
    exists ["3.10.2"; "3.9.1"], [], []. reflexivity.
Defined.

Lemma no_match_sorts_first_witness :
  ("pypy" <> EmptyString /\ VerRe.finditer "pypy" = [])
  /\ sort_key "pypy" = Ok [KInt 1; KStr "pypy"]
  /\ ~ before "pypy3.9" "pypy" ["pypy"; "pypy3.9"].
Proof.
  split; [split; [discriminate | reflexivity]|].
  destruct (no_match_sorts_first "pypy" ltac:(discriminate) eq_refl)
    as (_ & Hkey & Hfirst).
  split; [exact Hkey|].
  apply (Hfirst ["pypy3.9"; "pypy"] ["pypy"; "pypy3.9"] "pypy3.9");
    try reflexivity.
  - repeat constructor; discriminate.
  - discriminate.
Defined.

Lemma requirements_located_witness :
  wf_dir Sample.project = true
  /\ locate_requirements "/home/me/project" Sample.project
     = ["/home/me/project/requirements-dev.txt";
        "/home/me/project/requirements.txt";
        "/home/me/project/docs/requirements-docs.txt";
        "/home/me/project/docs/api/requirements.txt"]
  /\ In "/home/me/project/docs/api/requirements.txt"
        (locate_requirements "/home/me/project" Sample.project).
Proof.
  split; [reflexivity|]. split; [reflexivity|].
  destruct (requirements_located "/home/me/project" Sample.project eq_refl)
    as (_ & _ & _ & Hin).
  apply Hin.
  exists "/home/me/project/docs/api", [File "requirements.txt"], "requirements.txt".
  repeat split; try reflexivity; [|now left].
  apply (reach_sub "/home/me/project" Sample.project "/home/me/project/docs"
           [File "requirements-docs.txt"; File "index.rst";
            Dir "api" [File "requirements.txt"]]
           "api" [File "requirements.txt"]);
    [|cbn; tauto | reflexivity].
  apply (reach_sub "/home/me/project" Sample.project "/home/me/project"
           Sample.project "docs"
           [File "requirements-docs.txt"; File "index.rst";
            Dir "api" [File "requirements.txt"]]);
    [constructor | cbn; tauto | reflexivity].
Defined.

(** ** More about the picker *)

Lemma map_snd_enumerate options : forall start,
  map snd (enumerate start options) = options.
Proof.
  induction options as [|o os IH]; intros start; [reflexivity|].
  cbn [enumerate map snd]. now rewrite IH.
Qed.

(** Looking up a key of [dict(enumerate(options, start))]. *)
Lemma dict_get_enumerate options : forall start n,
  dict_get n (enumerate start options)
  = if (start <=? n) && (n <? start + Z.of_nat (List.length options))
    then nth_error options (Z.to_nat (n - start))
    else None.
Proof.
  induction options as [|o os IH]; intros start n.
  - cbn [enumerate dict_get List.length].
    destruct (start <=? n) eqn:E1, (n <? start + Z.of_nat 0) eqn:E2;
      try reflexivity.
    apply Z.leb_le in E1. apply Z.ltb_lt in E2. lia.
  - cbn [enumerate dict_get]. destruct (Z.eqb_spec start n) as [->|Hne].
    + replace (n <=? n) with true by (symmetry; apply Z.leb_refl).
      replace (n <? n + Z.of_nat (List.length (o :: os))) with true
        by (symmetry; apply Z.ltb_lt; cbn [List.length]; lia).
      now rewrite Z.sub_diag.
    + rewrite IH. cbn [List.length].
      destruct (start + 1 <=? n) eqn:E1, (start <=? n) eqn:E1';
        try (apply Z.leb_le in E1); try (apply Z.leb_le in E1');
        try (apply Z.leb_gt in E1); try (apply Z.leb_gt in E1');
        try lia; cbn [andb]; try reflexivity.
      replace (start + 1 + Z.of_nat (List.length os))
        with (start + Z.of_nat (S (List.length os))) by lia.
      destruct (n <? start + Z.of_nat (S (List.length os))); [|reflexivity].
      replace (Z.to_nat (n - start)) with (S (Z.to_nat (n - (start + 1)))) by lia.
      reflexivity.
Qed.

Lemma dict_get_in n d o : dict_get n d = Some o -> In o (map snd d).
Proof.
  induction d as [|[k o'] d IH]; cbn [dict_get map snd]; [discriminate|].
  destruct (k =? n); [intros [= ->]; now left | right; auto].
Qed.

(** What the selection loop returns comes from the dictionary. *)
Lemma select_in d response rs : forall out out',
  select d response rs out = inl out' ->
  List.length out' = (List.length out + List.length rs)%nat
  /\ (forall o, In o out' -> In o out \/ In o (map snd d))
  /\ (rs <> [] -> PyStr.int response <> None).
Proof.
  induction rs as [|r rs IH]; intros out out'; cbn [select].
  - intros [= <-]. cbn [List.length]. repeat split; auto; try lia.
  - destruct (PyStr.int response) as [n|] eqn:Hint; [|discriminate].
    destruct (dict_get n d) as [o|] eqn:Hget; [|discriminate].
    intros H. destruct (IH _ _ H) as (Hlen & Hin & _).
    rewrite length_app in Hlen. cbn [List.length] in *.
    repeat split; try lia; try discriminate.
    intros o' Ho'. destruct (Hin o' Ho') as [Hold|Hd]; [|now right].
    apply in_app_or in Hold as [Hold|[<-|[]]]; [now left|].
    right. eapply dict_get_in, Hget.
Qed.

Section PickerMore.

Context {W : Type}.

(** The menu does not depend on the world. *)
Lemma picker_loop_eq o os prompt sep nargs allow_quit :
  exists s,
    forall w : world W,
      picker (o :: os) prompt sep nargs allow_quit w
      = let '(r, unread, evs) :=
          picker_loop (enumerate 1 (o :: os)) s (multioption nargs)
                      (allows_empty nargs) allow_quit (stdin w) in
        (r, mkWorld unread (outside w) (events w ++ evs)).
Proof.
  destruct (dict_max_cons o os 1) as [n Hn].
  exists (menu (enumerate 1 (o :: os)) n prompt sep nargs allow_quit).
  intros w. unfold picker. now rewrite Hn.
Qed.

Lemma tokens_nonempty multi response : tokens multi response <> [].
Proof.
  unfold tokens. destruct multi; [|discriminate].
  destruct response as [|c t]; cbn [PyStr.split map]; [discriminate|].
  destruct (Ascii.eqb c ","); [discriminate|].
  destruct (PyStr.split "," t); discriminate.
Qed.



Lemma lower_q_no_int r : PyStr.lower r = "q" -> PyStr.int r = None.
Proof.
  destruct r as [|c [|d t]]; try discriminate.
  cbn [PyStr.lower]. intros [= H].
  destruct c as [[] [] [] [] [] [] [] []]; try discriminate H; reflexivity.
Qed.

Lemma has_quit_single response n :
  PyStr.int response = Some n -> has_quit [response] = false.
Proof.
  intros Hint. unfold has_quit. cbn [existsb]. rewrite orb_false_r.
  destruct (String.eqb_spec "q" (PyStr.lower response)) as [E|E]; [|reflexivity].
  symmetry in E. apply lower_q_no_int in E. congruence.
Qed.

Lemma picker_selects_int options prompt sep nargs allow_quit line rest n o
    (w : world W) :
  stdin w = line :: rest ->
  multioption nargs = false ->
  PyStr.int (PyStr.strip line) = Some n ->
  1 <= n ->
  nth_error options (Z.to_nat (n - 1)) = Some o ->
  exists s,
    picker options prompt sep nargs allow_quit w
    = (Ok (One o), mkWorld rest (outside w) (events w ++ [Prompt s])).
Proof.
  intros Hin Hmulti Hint Hn Hnth.
  destruct options as [|o0 os]; [now destruct (Z.to_nat (n - 1))|].
  destruct (picker_loop_eq o0 os prompt sep nargs allow_quit) as [s Hs].
  exists s. rewrite Hs, Hin, Hmulti. cbn [picker_loop].
  destruct (PyStr.strip line) as [|c t] eqn:Hresp; [discriminate Hint|].
  cbn [TextWrap.truthy negb tokens].
  rewrite (has_quit_single _ _ Hint), andb_false_r.
  cbn [select]. rewrite Hint, dict_get_enumerate.
  replace (1 <=? n) with true by (symmetry; apply Z.leb_le; lia).
  assert (Hlt : (Z.to_nat (n - 1) < List.length (o0 :: os))%nat)
    by (apply nth_error_Some; congruence).
  replace (n <? 1 + Z.of_nat (List.length (o0 :: os))) with true
    by (symmetry; apply Z.ltb_lt; lia).
  cbn [andb]. rewrite Hnth. reflexivity.
Qed.

(** X2: where one option is asked for, a response that [int] reads as a
    number between 1 and len(options) returns the option at that place of
    the list, after one prompt and nothing printed. *)
Theorem picker_selects options prompt sep nargs allow_quit line rest n o
    (w : world W) :
  stdin w = line :: rest ->
  multioption nargs = false ->
  PyStr.int (PyStr.strip line) = Some n ->
  1 <= n ->
  nth_error options (Z.to_nat (n - 1)) = Some o ->
  exists s,
    picker options prompt sep nargs allow_quit w
    = (Ok (One o), mkWorld rest (outside w) (events w ++ [Prompt s])).
Proof. apply picker_selects_int. Qed.

Lemma picker_loop_among d s multi empty_ok allow_quit lines :
  forall p unread evs,
    picker_loop d s multi empty_ok allow_quit lines = (Ok p, unread, evs) ->
    match p with
    | One o => In o (map snd d)
    | Many os =>
        Forall (fun o => In o (map snd d)) os
        /\ (multi = true)
    | Quit => allow_quit = true
    | PNone => empty_ok = true
    end.
Proof.
  induction lines as [|line rest IH]; intros p unread evs; [discriminate|].
  cbn [picker_loop].
  destruct (picker_loop d s multi empty_ok allow_quit rest) as [[r u] e].
  destruct (negb (TextWrap.truthy (PyStr.strip line))).
  - destruct empty_ok eqn:Ee.
    + intros [= <- <- <-]. reflexivity.
    + intros [= -> <- <-]. now apply (IH p u e).
  - destruct (allow_quit && has_quit (tokens multi (PyStr.strip line))) eqn:Eq.
    + intros [= <- <- <-]. now apply andb_prop in Eq as [-> _].
    + destruct (select d (PyStr.strip line) (tokens multi (PyStr.strip line)) [])
        as [out|said] eqn:Es.
      * destruct (select_in _ _ _ _ _ Es) as (_ & Hin & _).
        destruct multi; cbn [negb].
        -- intros [= <- <- <-]. split; [|reflexivity].
           apply Forall_forall. intros o Ho.
           destruct (Hin o Ho) as [[]|Hd]. exact Hd.
        -- destruct out as [|o out]; [discriminate|].
           intros [= <- <- <-].
           destruct (Hin o (or_introl eq_refl)) as [[]|Hd]. exact Hd.
      * intros [= -> <- <-]. now apply (IH p u e).
Qed.

Lemma picker_among options prompt sep nargs allow_quit
    (w w' : world W) p :
  picker options prompt sep nargs allow_quit w = (Ok p, w') ->
  match p with
  | One o => In o options /\ multioption nargs = false
  | Many os => Forall (fun o => In o options) os /\ multioption nargs = true
  | Quit => allow_quit = true
  | PNone => allows_empty nargs = true
  end.
Proof.
  unfold picker. destruct (dict_max (enumerate 1 options)); [|discriminate].
  destruct (picker_loop _ _ _ _ _ _) as [[r u] e] eqn:E.
  intros [= -> <-].
  pose proof (picker_loop_among _ _ _ _ _ _ _ _ _ E) as H.
  rewrite map_snd_enumerate in H.
  destruct p as [| |o|os]; auto.
  split; [exact H|].
  destruct (multioption nargs) eqn:Em; [|reflexivity].
  exfalso. clear H.
  revert u e E. generalize (stdin w).
  induction l as [|line rest IH]; intros u e; [discriminate|].
  cbn [picker_loop negb].
  destruct (picker_loop _ _ true _ _ rest) as [[r' u'] e'].
  repeat match goal with
         | |- context [if ?b then _ else _] => destruct b
         | |- context [match ?x with inl _ => _ | inr _ => _ end] => destruct x
         end; intros H; inversion H; subst; eauto.
Qed.

(** X3: whatever is typed, the picker returns an option only from the list
    it was given; it returns the quit signal only if quitting is allowed,
    [None] only if [nargs] is "?" or "*", and a list only if several options
    may be chosen. *)
Theorem picker_returns_listed options prompt sep nargs allow_quit
    (w w' : world W) p :
  picker options prompt sep nargs allow_quit w = (Ok p, w') ->
  match p with
  | One o => In o options /\ multioption nargs = false
  | Many os => Forall (fun o => In o options) os /\ multioption nargs = true
  | Quit => allow_quit = true
  | PNone => allows_empty nargs = true
  end.
Proof. apply picker_among. Qed.

End PickerMore.

(** ** [int] and [str] on integers *)

Lemma digit_char_ok d :
  0 <= d < 10 ->
  PyStr.is_digit (PyStr.digit_char d) = true
  /\ PyStr.digit_val (PyStr.digit_char d) = d.
Proof.
  intros H.
  assert (Hd : d = 0 \/ d = 1 \/ d = 2 \/ d = 3 \/ d = 4 \/ d = 5 \/ d = 6
               \/ d = 7 \/ d = 8 \/ d = 9) by lia.
  repeat (destruct Hd as [->|Hd]; [split; reflexivity|]).
  subst. split; reflexivity.
Qed.

Lemma pos_digits_S fuel n acc :
  PyStr.pos_digits (S fuel) n acc
  = if n <? 10 then String (PyStr.digit_char (n mod 10)) acc
    else PyStr.pos_digits fuel (n / 10) (String (PyStr.digit_char (n mod 10)) acc).
Proof. reflexivity. Qed.

(** [str] writes the digits from the last one, and [int] reads them back. *)
Lemma pos_digits_int fuel :
  forall n tail acc b,
    0 <= n < 10 ^ Z.of_nat (S fuel) ->
    exists m,
      PyStr.int_digits acc b (PyStr.pos_digits (S fuel) n tail)
      = PyStr.int_digits (acc * m + n) true tail.
Proof.
  induction fuel as [|fuel IH]; intros n tail acc b Hn.
  - change (10 ^ Z.of_nat 1) with 10 in Hn.
    cbn [PyStr.pos_digits].
    replace (n <? 10) with true by (symmetry; apply Z.ltb_lt; lia).
    exists 10. cbn [PyStr.int_digits].
    rewrite Z.mod_small by lia.
    destruct (digit_char_ok n) as [-> ->]; [lia|]. f_equal. lia.
  - rewrite pos_digits_S. destruct (n <? 10) eqn:E.
    + apply Z.ltb_lt in E. exists 10. cbn [PyStr.int_digits].
      rewrite Z.mod_small by lia.
      destruct (digit_char_ok n) as [-> ->]; [lia|]. f_equal. lia.
    + apply Z.ltb_ge in E.
      assert (Hdiv : 0 <= n / 10 < 10 ^ Z.of_nat (S fuel)).
      { split; [apply Z.div_pos; lia|].
        apply Z.div_lt_upper_bound; [lia|].
        replace (Z.of_nat (S (S fuel))) with (Z.succ (Z.of_nat (S fuel))) in Hn
          by lia.
        rewrite Z.pow_succ_r in Hn by lia. lia. }
      destruct (IH (n / 10) (String (PyStr.digit_char (n mod 10)) tail) acc b Hdiv)
        as [m Hm].
      exists (10 * m). rewrite Hm. cbn [PyStr.int_digits].
      destruct (digit_char_ok (n mod 10)) as [-> ->];
        [apply Z.mod_pos_bound; lia|].
      f_equal. pose proof (Z.div_mod n 10). lia.
Qed.

Lemma pos_digits_all_digits fuel :
  forall n tail,
    0 <= n -> all_digits tail = true ->
    all_digits (PyStr.pos_digits (S fuel) n tail) = true
    /\ PyStr.pos_digits (S fuel) n tail <> EmptyString.
Proof.
  induction fuel as [|fuel IH]; intros n tail Hn Ht.
  - cbn [PyStr.pos_digits].
    assert (Hd : PyStr.is_digit (PyStr.digit_char (n mod 10)) = true)
      by (apply digit_char_ok, Z.mod_pos_bound; lia).
    destruct (n <? 10); cbn [all_digits]; rewrite Hd, Ht; split;
      try reflexivity; discriminate.
  - rewrite pos_digits_S.
    assert (Hd : PyStr.is_digit (PyStr.digit_char (n mod 10)) = true)
      by (apply digit_char_ok, Z.mod_pos_bound; lia).
    destruct (n <? 10).
    + cbn [all_digits]. rewrite Hd, Ht. split; [reflexivity | discriminate].
    + apply IH; [apply Z.div_pos; lia|]. cbn [all_digits]. now rewrite Hd, Ht.
Qed.

Lemma enough_digits n : 0 <= n -> n < 10 ^ Z.of_nat (S (Z.to_nat (Z.log2 n))).
Proof.
  intros Hn.
  pose proof (Z.log2_nonneg n) as Hl.
  replace (Z.of_nat (S (Z.to_nat (Z.log2 n)))) with (Z.succ (Z.log2 n)) by lia.
  destruct (Z.eq_dec n 0) as [->|Hne]; [reflexivity|].
  destruct (Z.log2_spec n) as [_ Hlt]; [lia|].
  eapply Z.lt_le_trans; [exact Hlt|].
  apply Z.pow_le_mono_l. lia.
Qed.

Lemma int_of_digits s :
  all_digits s = true -> s <> EmptyString ->
  PyStr.int s = PyStr.int_digits 0 false s.
Proof.
  intros Hd Hne. unfold PyStr.int. rewrite (strip_numeral _ Hd).
  destruct s as [|c s]; [contradiction|].
  cbn [all_digits] in Hd. apply andb_prop in Hd as [Hc _].
  apply is_digit_cases in Hc. cbn in Hc.
  repeat (destruct Hc as [<-|Hc]; [reflexivity|]). contradiction.
Qed.

(** [int(str(n)) == n] for a natural number. *)
Lemma int_of_Z n : 0 <= n -> PyStr.int (PyStr.of_Z n) = Some n.
Proof.
  intros Hn. unfold PyStr.of_Z.
  replace (n <? 0) with false by (symmetry; apply Z.ltb_ge; lia).
  destruct (pos_digits_all_digits (Z.to_nat (Z.log2 n)) n "" Hn eq_refl)
    as [Hd Hne].
  rewrite (int_of_digits _ Hd Hne).
  destruct (pos_digits_int (Z.to_nat (Z.log2 n)) n "" 0 false) as [m Hm];
    [split; [exact Hn | now apply enough_digits]|].
  rewrite Hm. cbn [PyStr.int_digits]. f_equal; lia.
Qed.

Lemma digit_not_blank c : PyStr.is_digit c = true -> PyStr.is_space c = false.
Proof.
  intros H. apply is_digit_cases in H. cbn in H.
  repeat (destruct H as [<-|H]; [reflexivity|]). contradiction.
Qed.

Lemma strip_digits s : all_digits s = true -> PyStr.strip s = s.
Proof.
  intros H. unfold PyStr.strip.
  assert (Hr : forall t, all_digits t = true ->
                         PyStr.rstrip_by PyStr.is_space t = t).
  { induction t as [|c t IH]; [reflexivity|].
    cbn [all_digits PyStr.rstrip_by]. intros Ht.
    apply andb_prop in Ht as [Hc Ht]. rewrite (IH Ht).
    destruct t; [|reflexivity]. now rewrite (digit_not_blank _ Hc). }
  destruct s as [|c s]; [reflexivity|].
  cbn [PyStr.lstrip_by]. pose proof H as H'. cbn [all_digits] in H'.
  apply andb_prop in H' as [Hc _].
  rewrite (digit_not_blank _ Hc). now apply Hr.
Qed.

(** ** What the menu shows *)

Lemma string_length_app (s t : string) :
  String.length (s ++ t) = (String.length s + String.length t)%nat.
Proof.
  induction s as [|c s IH]; cbn [append String.length]; [reflexivity|].
  now rewrite IH.
Qed.

Lemma fold_max_enumerate os : forall start m,
  m < start ->
  fold_left (fun m (p : Z * string) => if m <? fst p then fst p else m)
    (enumerate start os) m
  = match os with
    | [] => m
    | _ :: _ => start + Z.of_nat (List.length os) - 1
    end.
Proof.
  induction os as [|o os IH]; intros start m Hm; [reflexivity|].
  cbn [enumerate fold_left fst].
  replace (m <? start) with true by (symmetry; apply Z.ltb_lt; lia).
  rewrite IH by lia. destruct os; cbn [List.length]; lia.
Qed.

(** [max(opt_dict)] is the number of options. *)
Lemma dict_max_enumerate o os :
  dict_max (enumerate 1 (o :: os)) = Ok (Z.of_nat (List.length (o :: os))).
Proof.
  cbn [enumerate dict_max]. f_equal.
  rewrite fold_max_enumerate by lia.
  destruct os; cbn [List.length]; lia.
Qed.

(** The picker with the menu that it shows. *)
Lemma picker_menu {W} o os prompt sep nargs allow_quit (w : world W) :
  picker (o :: os) prompt sep nargs allow_quit w
  = let '(r, unread, evs) :=
      picker_loop (enumerate 1 (o :: os))
        (menu (enumerate 1 (o :: os)) (Z.of_nat (List.length (o :: os)))
           prompt sep nargs allow_quit)
        (multioption nargs) (allows_empty nargs) allow_quit (stdin w) in
    (r, mkWorld unread (outside w) (events w ++ evs)).
Proof. unfold picker. now rewrite dict_max_enumerate. Qed.

Lemma menu_fold_prefix sep width d : forall acc,
  exists b,
    fold_left
      (fun s (p : Z * string) =>
         s ++ PyStr.ljust ("  " ++ PyStr.of_Z (fst p) ++ sep) width
           ++ snd p ++ NL)
      d acc
    = acc ++ b.
Proof.
  induction d as [|p d IH]; intros acc; cbn [fold_left].
  - exists "". now rewrite append_empty_r.
  - destruct (IH (acc ++ PyStr.ljust ("  " ++ PyStr.of_Z (fst p) ++ sep) width
                    ++ snd p ++ NL)) as [b Hb].
    rewrite Hb. rewrite append_assoc. eauto.
Qed.

(** Each option has its line among the lines that the loop over [opt_dict]
    adds to the menu. *)
Lemma menu_fold_line sep width options : forall start i o acc a,
  nth_error options i = Some o ->
  acc = a ++ NL ->
  exists a' b,
    fold_left
      (fun s (p : Z * string) =>
         s ++ PyStr.ljust ("  " ++ PyStr.of_Z (fst p) ++ sep) width
           ++ snd p ++ NL)
      (enumerate start options) acc
    = a' ++ NL
      ++ PyStr.ljust ("  " ++ PyStr.of_Z (start + Z.of_nat i) ++ sep) width
      ++ o ++ NL ++ b.
Proof.
  induction options as [|o' os IH]; intros start i o acc a Hnth Hacc.
  - destruct i; discriminate.
  - cbn [enumerate fold_left fst snd]. destruct i as [|i].
    + injection Hnth as ->.
      destruct (menu_fold_prefix sep width (enumerate (start + 1) os)
                  (acc ++ PyStr.ljust ("  " ++ PyStr.of_Z start ++ sep) width
                     ++ o ++ NL)) as [b Hb].
      exists a, b. rewrite Hb, Hacc.
      change (Z.of_nat 0) with 0. rewrite Z.add_0_r.
      now rewrite !append_assoc.
    + cbn [nth_error] in Hnth.
      destruct (IH (start + 1) i o
                  (acc ++ PyStr.ljust ("  " ++ PyStr.of_Z start ++ sep) width
                     ++ o' ++ NL)
                  (acc ++ PyStr.ljust ("  " ++ PyStr.of_Z start ++ sep) width
                     ++ o')
                  Hnth) as (a' & b & H).
      * now rewrite !append_assoc.
      * exists a', b. rewrite H.
        replace (start + 1 + Z.of_nat i) with (start + Z.of_nat (S i)) by lia.
        reflexivity.
Qed.

(** The menu holds, for each option, a line of its own: two spaces, the
    index, [sep], the padding of [ljust], and the option. *)
Lemma menu_shows options start highest_n prompt sep nargs allow_quit i o :
  nth_error options i = Some o ->
  exists a b,
    menu (enumerate start options) highest_n prompt sep nargs allow_quit
    = a ++ NL ++ "  " ++ PyStr.of_Z (start + Z.of_nat i) ++ sep
      ++ PyStr.spaces (String.length (PyStr.of_Z highest_n)
                       - String.length (PyStr.of_Z (start + Z.of_nat i)))
      ++ o ++ NL ++ b.
Proof.
  intros Hnth. unfold menu. cbv zeta.
  destruct (menu_fold_line sep
              (String.length ("  " ++ PyStr.of_Z highest_n ++ sep))
              options start i o (prompt ++ NL) prompt Hnth eq_refl)
    as (a & b & H).
  rewrite H. clear H. unfold PyStr.ljust.
  replace (String.length ("  " ++ PyStr.of_Z highest_n ++ sep)
           - String.length ("  " ++ PyStr.of_Z (start + Z.of_nat i) ++ sep))%nat
    with (String.length (PyStr.of_Z highest_n)
          - String.length (PyStr.of_Z (start + Z.of_nat i)))%nat
    by (cbn [append String.length]; rewrite !string_length_app; lia).
  destruct allow_quit.
  - exists a, (b ++ "q: quit" ++ NL ++ type_line nargs).
    repeat first [rewrite append_assoc | progress cbn [append]]. reflexivity.
  - exists a, (b ++ type_line nargs).
    repeat first [rewrite append_assoc | progress cbn [append]]. reflexivity.
Qed.

(** X4: typing the number that the menu shows before an option returns that
    option.  The menu that the picker prompts with holds a line made of two
    spaces, [str(k)], [sep], the padding up to the width of the highest
    index, and the option at place [k] of the list; and the picker reads
    [str(k)] back as [k] and returns that option. *)
Theorem picker_selects_displayed {W} options prompt sep nargs allow_quit
    k o rest (w : world W) :
  stdin w = PyStr.of_Z k :: rest ->
  multioption nargs = false ->
  1 <= k ->
  nth_error options (Z.to_nat (k - 1)) = Some o ->
  let pad := (String.length (PyStr.of_Z (Z.of_nat (List.length options)))
              - String.length (PyStr.of_Z k))%nat in
  PyStr.int (PyStr.of_Z k) = Some k
  /\ exists s,
       picker options prompt sep nargs allow_quit w
       = (Ok (One o), mkWorld rest (outside w) (events w ++ [Prompt s]))
       /\ exists a b,
            s = a ++ NL ++ "  " ++ PyStr.of_Z k ++ sep ++ PyStr.spaces pad
                ++ o ++ NL ++ b.
Proof.
  intros Hin Hmulti Hk Hnth pad.
  assert (Hint : PyStr.int (PyStr.of_Z k) = Some k) by (apply int_of_Z; lia).
  split; [exact Hint|].
  destruct options as [|o0 os]; [now destruct (Z.to_nat (k - 1))|].
  exists (menu (enumerate 1 (o0 :: os)) (Z.of_nat (List.length (o0 :: os)))
            prompt sep nargs allow_quit).
  split.
  - assert (Hstrip : PyStr.strip (PyStr.of_Z k) = PyStr.of_Z k).
    { apply strip_digits. unfold PyStr.of_Z.
      replace (k <? 0) with false by (symmetry; apply Z.ltb_ge; lia).
      apply pos_digits_all_digits; [lia | reflexivity]. }
    rewrite picker_menu, Hin, Hmulti. cbn [picker_loop]. rewrite Hstrip.
    destruct (PyStr.of_Z k) as [|c t] eqn:Hresp; [discriminate Hint|].
    cbn [TextWrap.truthy negb tokens].
    rewrite (has_quit_single _ _ Hint), andb_false_r.
    cbn [select]. rewrite Hint, dict_get_enumerate.
    replace (1 <=? k) with true by (symmetry; apply Z.leb_le; lia).
    assert (Hlt : (Z.to_nat (k - 1) < List.length (o0 :: os))%nat)
      by (apply nth_error_Some; congruence).
    replace (k <? 1 + Z.of_nat (List.length (o0 :: os))) with true
      by (symmetry; apply Z.ltb_lt; lia).
    cbn [andb]. rewrite Hnth. reflexivity.
  - destruct (menu_shows (o0 :: os) 1 (Z.of_nat (List.length (o0 :: os)))
                prompt sep nargs allow_quit (Z.to_nat (k - 1)) o Hnth)
      as (a & b & H).
    replace (1 + Z.of_nat (Z.to_nat (k - 1))) with k in H by lia.
    exists a, b. exact H.
Qed.

(** ** Responses with commas *)

Lemma has_comma_cons c s :
  has_comma (String c s) = Ascii.eqb "," c || has_comma s.
Proof. reflexivity. Qed.

Lemma has_comma_lstrip s :
  has_comma s = true -> has_comma (PyStr.lstrip_by PyStr.is_int_space s) = true.
Proof.
  induction s as [|c s IH]; [discriminate|].
  cbn [PyStr.lstrip_by]. destruct (PyStr.is_int_space c) eqn:Hs; [|auto].
  rewrite has_comma_cons. destruct (Ascii.eqb_spec "," c) as [<-|_];
    [discriminate Hs | exact IH].
Qed.

Lemma has_comma_rstrip s :
  has_comma s = true -> has_comma (PyStr.rstrip_by PyStr.is_int_space s) = true.
Proof.
  induction s as [|c s IH]; [discriminate|].
  rewrite has_comma_cons. cbn [PyStr.rstrip_by]. intros H.
  destruct (Ascii.eqb_spec "," c) as [<-|Hc].
  - destruct (PyStr.rstrip_by PyStr.is_int_space s); reflexivity.
  - cbn [orb] in H. specialize (IH H).
    destruct (PyStr.rstrip_by PyStr.is_int_space s) as [|d t];
      [discriminate IH|].
    rewrite has_comma_cons, IH. apply orb_true_r.
Qed.

Lemma int_digits_comma s :
  has_comma s = true -> forall acc b, PyStr.int_digits acc b s = None.
Proof.
  induction s as [|c s IH]; [discriminate|].
  rewrite has_comma_cons. intros H acc b. cbn [PyStr.int_digits].
  destruct (Ascii.eqb_spec "," c) as [<-|Hc]; [reflexivity|].
  cbn [orb] in H.
  destruct (PyStr.is_digit c); [now apply IH|].
  destruct (Ascii.eqb c "_" && b); [now apply IH | reflexivity].
Qed.

(** [int] reads no string that holds a comma. *)
Lemma int_comma s : has_comma s = true -> PyStr.int s = None.
Proof.
  intros H. unfold PyStr.int.
  apply has_comma_lstrip, has_comma_rstrip in H.
  destruct (PyStr.rstrip_by _ _) as [|c t]; [discriminate H|].
  pose proof (int_digits_comma _ H 0 false) as Hall.
  assert (Htail : c <> ","%char -> PyStr.int_digits 0 false t = None).
  { intros Hc. apply int_digits_comma. rewrite has_comma_cons in H.
    destruct (Ascii.eqb_spec "," c) as [E|_]; [now symmetry in E | exact H]. }
  destruct c as [[] [] [] [] [] [] [] []];
    first [ exact Hall
          | rewrite Htail by discriminate; reflexivity ].
Qed.

Lemma split_no_comma s : has_comma s = false -> PyStr.split "," s = [s].
Proof.
  induction s as [|c s IH]; [reflexivity|].
  rewrite has_comma_cons. intros H. apply orb_false_elim in H as [Hc Hs].
  cbn [PyStr.split]. rewrite Ascii.eqb_sym, Hc, (IH Hs). reflexivity.
Qed.

Lemma picker_loop_one d s empty_ok allow_quit lines :
  forall os unread evs,
    picker_loop d s true empty_ok allow_quit lines = (Ok (Many os), unread, evs) ->
    exists o, os = [o].
Proof.
  induction lines as [|line rest IH]; intros os unread evs; [discriminate|].
  cbn [picker_loop negb].
  destruct (picker_loop d s true empty_ok allow_quit rest) as [[r u] e].
  destruct (negb (TextWrap.truthy (PyStr.strip line))).
  - destruct empty_ok; [discriminate|].
    intros [= -> <- <-]. now apply (IH os u e).
  - destruct (allow_quit && has_quit (tokens true (PyStr.strip line)));
      [discriminate|].
    destruct (select d (PyStr.strip line) (tokens true (PyStr.strip line)) [])
      as [out|said] eqn:Es.
    + intros [= <- <- <-].
      destruct (select_in _ _ _ _ _ Es) as (Hlen & _ & Hint).
      specialize (Hint (tokens_nonempty _ _)).
      destruct (has_comma (PyStr.strip line)) eqn:Hc;
        [now apply int_comma in Hc|].
      unfold tokens in Hlen. rewrite (split_no_comma _ Hc) in Hlen.
      cbn [map List.length] in Hlen.
      destruct out as [|o [|o' out]]; try discriminate Hlen. eauto.
    + intros [= -> <- <-]. now apply (IH os u e).
Qed.

(** X5: where several options may be chosen ([nargs] "+", "*" or more than
    1), a list that the picker returns holds one option and no more, and
    that option is one of the list it was given. *)
Theorem picker_list_is_single {W} options prompt sep nargs allow_quit
    (w w' : world W) os :
  picker options prompt sep nargs allow_quit w = (Ok (Many os), w') ->
  multioption nargs = true /\ exists o, os = [o] /\ In o options.
Proof.
  unfold picker. destruct (dict_max (enumerate 1 options)); [|discriminate].
  destruct (picker_loop _ _ _ _ _ _) as [[r u] e] eqn:E.
  intros [= -> <-].
  pose proof (picker_loop_among _ _ _ _ _ _ _ _ _ E) as [Hall Hm].
  split; [exact Hm|]. rewrite Hm in E.
  destruct (picker_loop_one _ _ _ _ _ _ _ _ E) as [o ->].
  exists o. split; [reflexivity|].
  rewrite map_snd_enumerate in Hall. now inversion Hall.
Qed.

(** ** More about [create_environment] *)

Section CreationMore.

Context {W : Type} (sp_run : list string -> W -> CompletedProcess * W).
Context (pyenv_path : string) (pip_path_of : string -> string).

Ltac world_simpl := cbn [stdin outside events].

Lemma bind_run_checked_fail {B} cmd (k : CompletedProcess -> M W B)
    (w : world W) cp o :
  sp_run cmd (outside w) = (cp, o) ->
  returncode cp <> 0 ->
  bind (run_checked sp_run cmd) k w
  = (Raise (CalledProcessError (returncode cp) cmd),
     mkWorld (stdin w) o (events w ++ [Run cmd cp])).
Proof.
  intros H R. unfold run_checked. apply bind_fail.
  rewrite (bind_run _ _ _ _ _ _ H).
  apply Z.eqb_neq in R. now rewrite R.
Qed.

(** X7: when the environment is created and [pyenv local] returns a
    nonzero status, the run raises [CalledProcessError] with that status and
    command after two subprocess calls; when [pyenv local] succeeds and the
    pip upgrade returns a nonzero status, it raises it after three.  In both
    cases no requirements file is installed. *)
Theorem later_steps_are_fatal version name reqs (w : world W) cp1 o1 cp2 o2 :
  let pip := pip_path_of name in
  let create := [pyenv_path; "virtualenv"; version; name] in
  let localise := [pyenv_path; "local"; name] in
  let update := [pip; "install"; "-U"; "pip"] in
  sp_run create (outside w) = (cp1, o1) ->
  returncode cp1 = 0 ->
  sp_run localise o1 = (cp2, o2) ->
  (returncode cp2 <> 0 ->
   exists evs,
     create_environment sp_run pyenv_path pip_path_of version name reqs w
     = (Raise (CalledProcessError (returncode cp2) localise),
        mkWorld (stdin w) o2 (events w ++ evs))
     /\ runs evs = [create; localise])
  /\ (returncode cp2 = 0 ->
      forall cp3 o3,
        sp_run update o2 = (cp3, o3) ->
        returncode cp3 <> 0 ->
        exists evs,
          create_environment sp_run pyenv_path pip_path_of version name reqs w
          = (Raise (CalledProcessError (returncode cp3) update),
             mkWorld (stdin w) o3 (events w ++ evs))
          /\ runs evs = [create; localise; update]).
Proof.
  intros pip create localise update H1 R1 H2.
  assert (Hstart :
    create_environment sp_run pyenv_path pip_path_of version name reqs w
    = bind (run_checked sp_run localise)
        (fun loc =>
           bind (emit (LogStdout (stdout loc))) (fun _ =>
           bind (emit (LogStderr (stderr loc))) (fun _ =>
           bind (emit (Print "Updating pip...")) (fun _ =>
           bind (run_checked sp_run update) (fun upd =>
           bind (emit (LogStdout (stdout upd))) (fun _ =>
           bind (emit (LogStderr (stderr upd))) (fun _ =>
           bind match reqs with
                | None | Some [] => ret tt
                | Some rs => install_all sp_run pip rs
                end (fun _ => emit (Print "Done!")))))))))
        (mkWorld (stdin w) o1
           (events w
            ++ [Print ("Creating environment called '" ++ name
                       ++ "' for python version '" ++ version ++ "'...");
                Run create cp1; LogStdout (stdout cp1); LogStderr (stderr cp1);
                Print "Setting as local version..."]))).
  { unfold create_environment. rewrite bind_emit.
    erewrite bind_run by (world_simpl; exact H1).
    rewrite bind_emit. world_simpl.
    rewrite R1. change (negb (0 =? 0)) with false. cbv iota.
    rewrite !bind_emit. world_simpl. rewrite <- !app_assoc. reflexivity. }
  rewrite Hstart. clear Hstart.
  set (e1 := Print (_ ++ _)%string). set (e2 := Run create cp1).
  split.
  - intros R2. erewrite bind_run_checked_fail by (world_simpl; eassumption).
    world_simpl.
    exists ([e1; e2; LogStdout (stdout cp1); LogStderr (stderr cp1);
             Print "Setting as local version..."; Run localise cp2])%list.
    rewrite <- app_assoc. split; reflexivity.
  - intros R2 cp3 o3 H3 R3.
    erewrite bind_run_checked by (world_simpl; eassumption).
    rewrite !bind_emit. world_simpl.
    erewrite bind_run_checked_fail by (world_simpl; eassumption).
    world_simpl.
    exists ([e1; e2; LogStdout (stdout cp1); LogStderr (stderr cp1);
             Print "Setting as local version..."; Run localise cp2;
             LogStdout (stdout cp2); LogStderr (stderr cp2);
             Print "Updating pip..."; Run update cp3])%list.
    rewrite <- !app_assoc. split; reflexivity.
Qed.




End CreationMore.

(** ** More about argument resolution *)

Lemma rmap_ok {A B} (f : A -> res B) l out :
  rmap f l = Ok out -> forall x, In x l -> exists y, f x = Ok y.
Proof.
  revert out. induction l as [|a l IH]; intros out H x Hx; [contradiction|].
  cbn [rmap] in H. destruct (f a) as [b|] eqn:Ha; [|discriminate].
  cbn [rbind] in H. destruct (rmap f l) as [bs|] eqn:Hl; [|discriminate].
  destruct Hx as [<-|Hx]; [eauto | eapply IH; eauto].
Qed.

(** The sort returns only if no name is empty. *)
Lemma get_pyenv_versions_names names out :
  get_pyenv_versions names = Ok out ->
  Forall (fun s => s <> EmptyString) names.
Proof.
  unfold get_pyenv_versions, sorted_by. intros H.
  destruct (rmap _ names) as [ks|] eqn:Hk; [|discriminate].
  apply Forall_forall. intros x Hx ->.
  destruct (rmap_ok _ _ _ Hk "" Hx) as [y Hy]. discriminate Hy.
Qed.

Lemma filter_versions_ok {regex} (re_compile : string -> option regex)
    re_search names filter_str matching :
  filter_versions regex re_compile re_search names filter_str = Ok matching ->
  exists versions test,
    get_pyenv_versions names = Ok versions
    /\ matching = filter test versions.
Proof.
  unfold filter_versions.
  destruct (get_pyenv_versions names) as [versions|]; [|discriminate].
  cbn [rbind]. destruct (PyStr.startswith filter_str "/").
  - destruct (re_compile _) as [r|]; [|discriminate].
    intros [= <-]. rewrite yield_if_filter. eauto.
  - intros [= <-]. rewrite yield_if_filter. eauto.
Qed.

Lemma filter_head_before {A} (test : A -> bool) l v m :
  filter test l = v :: m -> forall u, In u m -> before v u l.
Proof.
  induction l as [|x l IH]; [discriminate|].
  cbn [filter]. destruct (test x) eqn:Hx.
  - intros [= -> <-] u Hu. apply filter_In in Hu as [Hu _].
    apply in_split in Hu as (l1 & l2 & ->).
    exists [], l1, l2. reflexivity.
  - intros H u Hu. destruct (IH H u Hu) as (l1 & l2 & l3 & ->).
    exists (x :: l1), l2, l3. reflexivity.
Qed.

(** The versions that match are installed, and the first of them is not
    preceded by any other in the order of the keys. *)
Lemma matching_versions_facts {regex} (re_compile : string -> option regex)
    re_search names filter_str matching :
  filter_versions regex re_compile re_search names filter_str = Ok matching ->
  (forall u, In u matching -> In u names)
  /\ forall v m, matching = v :: m ->
       forall u, In u matching -> key_before u v = false.
Proof.
  intros H. destruct (filter_versions_ok _ _ _ _ _ H) as (versions & test & Hv & ->).
  pose proof (get_pyenv_versions_names _ _ Hv) as Hne.
  pose proof Hv as Hv'. rewrite (get_pyenv_versions_isort _ Hne) in Hv'.
  injection Hv' as <-. split.
  - intros u Hu. apply filter_In in Hu as [Hu _].
    eapply Permutation_in;
      [symmetry; exact (isort_perm key_cmp key_of names) | exact Hu].
  - intros v m Hm u Hu. pose proof Hu as Hu'. rewrite Hm in Hu'.
    destruct Hu' as [<-|Hu'].
    + unfold key_before. now rewrite (cmp_refl _ key_total).
    + apply (isort_before key_cmp key_total key_of names).
      eapply filter_head_before; eauto.
Qed.

Section MainMore.

Context {W : Type} (sp_run : list string -> W -> CompletedProcess * W).
Context (pyenv_path : string) (pip_path_of : string -> string).
Context {regex : Type} (re_compile : string -> option regex).
Context (re_search : regex -> string -> bool).
Context (CWD : string).

Local Abbreviation filter_versions' := (filter_versions regex re_compile re_search).
Local Abbreviation from_parsed' := (from_parsed re_compile re_search CWD).
Local Abbreviation main' :=
  (main sp_run pyenv_path pip_path_of re_compile re_search CWD).

Lemma bind_ret_inv {A B} (m : M W A) (f : A -> B) (w w' : world W) b :
  bind m (fun a => ret (f a)) w = (Ok b, w') ->
  exists a, m w = (Ok a, w') /\ b = f a.
Proof.
  unfold bind, ret. destruct (m w) as [[a|e] w1]; [|discriminate].
  intros [= <- <-]. eauto.
Qed.

(** What [from_parsed] returns holds the version that was resolved. *)
Lemma from_parsed_version names es ns matching (w w' : world W) args :
  filter_versions' names (ns_py_version ns) = Ok matching ->
  from_parsed' names es ns w = (Ok args, w') ->
  name args = ns_name ns
  /\ exists w1,
       (if ns_pick ns then pick_versions matching
        else match matching with
             | v :: _ => ret v
             | [] => raise IndexError
             end) w = (Ok (py_version args), w1).
Proof.
  intros Hf. unfold from_parsed. rewrite Hf, bind_lift_ok.
  unfold bind at 1.
  destruct ((if ns_pick ns then pick_versions matching
             else match matching with
                  | v :: _ => ret v
                  | [] => raise IndexError
                  end) w) as [[v|e] w1]; [|discriminate].
  intros H. apply bind_ret_inv in H as (reqs & _ & ->).
  cbn [name py_version]. eauto.
Qed.

(** X9: when [from_parsed] returns, the version it resolved is one of the
    versions that match the filter, hence one of the names found in the
    versions directory, whether it was picked or taken by default; and the
    name of the environment is the one given. *)
Theorem resolved_version_is_installed names es ns matching (w w' : world W) args :
  filter_versions' names (ns_py_version ns) = Ok matching ->
  from_parsed' names es ns w = (Ok args, w') ->
  In (py_version args) matching
  /\ In (py_version args) names
  /\ name args = ns_name ns.
Proof.
  intros Hf Hp.
  destruct (from_parsed_version _ _ _ _ _ _ _ Hf Hp) as (Hname & w1 & Hv).
  destruct (matching_versions_facts _ _ _ _ _ Hf) as [Hsub _].
  assert (Hin : In (py_version args) matching).
  { destruct (ns_pick ns).
    - unfold pick_versions, bind in Hv.
      destruct (picker matching _ _ _ _ w) as [[p|e] w2] eqn:Hpick;
        [|discriminate].
      apply picker_among in Hpick.
      destruct p as [| |o|os]; try discriminate.
      injection Hv as <- _. apply Hpick.
    - destruct matching as [|v m]; [discriminate|].
      injection Hv as <- _. now left. }
  auto.
Qed.

(** X10: without [--pick] the version that [from_parsed] resolves is the
    first of the versions that match: no version that matches comes before
    it in the order of the sort keys. *)
Theorem default_version_is_first names es ns matching (w w' : world W) args :
  ns_pick ns = false ->
  filter_versions' names (ns_py_version ns) = Ok matching ->
  from_parsed' names es ns w = (Ok args, w') ->
  (exists m, matching = py_version args :: m)
  /\ forall u, In u matching -> key_before u (py_version args) = false.
Proof.
  intros Hpick Hf Hp.
  destruct (from_parsed_version _ _ _ _ _ _ _ Hf Hp) as (_ & w1 & Hv).
  rewrite Hpick in Hv.
  destruct matching as [|v m]; [discriminate|].
  injection Hv as <- _.
  split; [eauto|].
  destruct (matching_versions_facts _ _ _ _ _ Hf) as [_ Hfirst].
  now apply (Hfirst v m).
Qed.

(** X11: with a bare [-r], requirements files in the tree and an empty
    response to the prompt, the picker returns [None], and [main] raises
    [TypeError] on [list(None)] after that one prompt: no subprocess is
    called. *)
Theorem empty_requirements_response names es ns v vs line rest (w : world W) :
  filter_versions' names (ns_py_version ns) = Ok (v :: vs) ->
  ns_pick ns = false ->
  ns_requirements ns = Some [None] ->
  locate_requirements CWD es <> [] ->
  stdin w = line :: rest ->
  PyStr.strip line = EmptyString ->
  exists s,
    pick_requirements CWD es w
    = (Ok PNone, mkWorld rest (outside w) (events w ++ [Prompt s]))
    /\ main' names es ns w
       = (Raise TypeError, mkWorld rest (outside w) (events w ++ [Prompt s])).
Proof.
  intros Hf Hpick Hr Hloc Hin Hline.
  destruct (locate_requirements CWD es) as [|o os] eqn:El; [contradiction|].
  destruct (picker_loop_eq (W := W) o os
              "Select which requirements to install: " ". " (NStr "*") false)
    as [s Hs].
  exists s.
  assert (Hp : pick_requirements CWD es w
               = (Ok PNone, mkWorld rest (outside w) (events w ++ [Prompt s]))).
  { unfold pick_requirements. rewrite El, Hs, Hin.
    cbn [picker_loop]. rewrite Hline. reflexivity. }
  split; [exact Hp|].
  apply main_fails_in_from_parsed.
  unfold from_parsed. rewrite Hf, Hpick, Hr, bind_lift_ok, bind_ret.
  apply bind_fail. erewrite bind_ok by exact Hp. reflexivity.
Qed.


End MainMore.

(** ** More about the sort *)

Section SortMore.

Context {A K : Type} (cmp : K -> K -> comparison) (Hcmp : total_cmp cmp).
Context (keyf : A -> K).

Let ltb (a b : A) : bool := is_lt (cmp (keyf a) (keyf b)).

(** A sorted list is left as it is. *)
Lemma isort_fixed l :
  StronglySorted (fun a b => ltb b a = false) l -> isort ltb l = l.
Proof.
  induction 1 as [|x l Hs IH Hx]; [reflexivity|].
  cbn [isort]. rewrite IH.
  destruct l as [|y l]; [reflexivity|].
  cbn [insert]. inversion Hx as [|? ? Hy _]; subst.
  now rewrite Hy.
Qed.

(** The elements of one key keep their order. *)
Lemma insert_stable k x l :
  let p := fun a => match cmp (keyf a) k with Eq => true | _ => false end in
  filter p (insert ltb x l) = filter p (x :: l).
Proof.
  intros p. induction l as [|y l IH]; [reflexivity|].
  cbn [insert]. destruct (ltb y x) eqn:E; [|reflexivity].
  cbn [filter] in *. rewrite IH.
  destruct (p x) eqn:Px; [|reflexivity].
  assert (Py : p y = false).
  { unfold p in *. unfold ltb in E.
    destruct (cmp (keyf x) k) eqn:Ex; try discriminate Px.
    apply (cmp_eq _ Hcmp) in Ex. rewrite <- Ex.
    destruct (cmp (keyf y) (keyf x)); try discriminate E. reflexivity. }
  now rewrite Py.
Qed.

Lemma isort_stable k l :
  let p := fun a => match cmp (keyf a) k with Eq => true | _ => false end in
  filter p (isort ltb l) = filter p l.
Proof.
  intros p. induction l as [|x l IH]; [reflexivity|].
  cbn [isort]. unfold p. rewrite insert_stable. fold p.
  cbn [filter]. now rewrite IH.
Qed.

End SortMore.

(** X13: sorting a list of versions that is already sorted returns it
    unchanged. *)
Theorem sorting_twice_changes_nothing names out :
  get_pyenv_versions names = Ok out ->
  get_pyenv_versions out = Ok out.
Proof.
  intros H.
  pose proof (get_pyenv_versions_names _ _ H) as Hne.
  rewrite (get_pyenv_versions_isort _ Hne) in H. injection H as <-.
  assert (Hne' : Forall (fun s => s <> EmptyString) (isort key_before names)).
  { apply (Permutation_Forall (isort_perm key_cmp key_of names)), Hne. }
  rewrite (get_pyenv_versions_isort _ Hne'). f_equal.
  apply (isort_fixed key_cmp key_of).
  exact (isort_sorted key_cmp key_total key_of names).
Qed.

(** X14: the sort is stable: the versions that have the same sort key as a
    given one, such as "3.9" and "3.09", come out in the order in which the
    directory listed them. *)
Theorem equal_keys_keep_listing_order names out t :
  get_pyenv_versions names = Ok out ->
  filter (same_key t) out = filter (same_key t) names.
Proof.
  intros H.
  pose proof (get_pyenv_versions_names _ _ H) as Hne.
  rewrite (get_pyenv_versions_isort _ Hne) in H. injection H as <-.
  exact (isort_stable key_cmp key_total key_of (key_of t) names).
Qed.

(** X15: among the versions whose first character is no digit, the sort
    goes by the base first, in the order of strings, whatever the numbers:
    no such version comes after one of a larger base. *)
Theorem named_versions_sorted_by_base names out x y :
  get_pyenv_versions names = Ok out ->
  before x y out ->
  leading_digit x = false ->
  leading_digit y = false ->
  PyStr.lt (base y) (base x) = false.
Proof.
  intros H Hb Lx Ly.
  pose proof (get_pyenv_versions_names _ _ H) as Hne.
  pose proof (sorted_versions_ordered _ _ _ _ Hne H Hb) as Hord.
  destruct (before_in _ _ _ Hb) as [Hx Hy].
  pose proof (sorted_versions_nonempty _ _ _ Hne H Hx) as Nx.
  pose proof (sorted_versions_nonempty _ _ _ Hne H Hy) as Ny.
  destruct (sort_key_shape x Nx) as (tx & _ & _ & _ & Kx).
  destruct (sort_key_shape y Ny) as (ty & _ & _ & _ & Ky).
  unfold key_before in Hord. rewrite Kx, Ky in Hord.
  unfold key_head in Hord. rewrite Lx, Ly in Hord.
  unfold key_cmp in Hord. cbn [app lex_cmp kelem_cmp] in Hord.
  change (1 ?= 1) with Eq in Hord. cbv iota in Hord.
  unfold PyStr.lt, String.ltb.
  destruct (String.compare (base y) (base x)); try reflexivity.
  discriminate Hord.
Qed.

(** X16: among the versions whose first character is a digit, the base
    plays no part: none comes after one of a lower first version, whatever
    else the two names hold. *)
Theorem numbered_versions_sorted_by_version names out x y vx vy :
  get_pyenv_versions names = Ok out ->
  before x y out ->
  leading_digit x = true ->
  leading_digit y = true ->
  first_version x = Some vx ->
  first_version y = Some vy ->
  ~ version_lt vx vy.
Proof.
  intros H Hb Lx Ly Hvx Hvy Hlt.
  destruct vx as [[ax bx] cx], vy as [[ay by'] cy].
  pose proof (get_pyenv_versions_names _ _ H) as Hne.
  pose proof (sorted_versions_ordered _ _ _ _ Hne H Hb) as Hord.
  destruct (before_in _ _ _ Hb) as [Hx Hy].
  pose proof (sorted_versions_nonempty _ _ _ Hne H Hx) as Nx.
  pose proof (sorted_versions_nonempty _ _ _ Hne H Hy) as Ny.
  destruct (key_of_first_version _ _ _ _ Nx Hvx) as (tx & Kx).
  destruct (key_of_first_version _ _ _ _ Ny Hvy) as (ty & Ky).
  unfold key_before in Hord. rewrite Kx, Ky in Hord.
  unfold key_head in Hord. rewrite Lx, Ly in Hord.
  unfold key_cmp in Hord. cbn [app lex_cmp] in Hord.
  change (kelem_cmp (KInt 0) (KInt 0)) with Eq in Hord. cbv iota in Hord.
  rewrite (version_lt_cmp _ _ _ _ _ _ Hlt) in Hord. discriminate Hord.
Qed.

(** ** More about the filter *)

Lemma startswith_trans f1 : forall f2 v,
  PyStr.startswith v f2 = true ->
  PyStr.startswith f2 f1 = true ->
  PyStr.startswith v f1 = true.
Proof.
  induction f1 as [|c f1 IH]; intros f2 v Hv Hf; [reflexivity|].
  destruct f2 as [|d f2]; [discriminate Hf|].
  destruct v as [|e v]; [discriminate Hv|].
  cbn [PyStr.startswith] in *.
  apply andb_prop in Hv as [Hed Hv]. apply andb_prop in Hf as [Hdc Hf].
  apply Ascii.eqb_eq in Hed, Hdc. subst.
  rewrite Ascii.eqb_refl. cbn [andb]. now apply (IH f2).
Qed.

Lemma filter_filter_imp {A} (p q : A -> bool) l :
  (forall x, q x = true -> p x = true) ->
  filter q (filter p l) = filter q l.
Proof.
  intros H. induction l as [|x l IH]; [reflexivity|].
  cbn [filter]. destruct (p x) eqn:Px.
  - cbn [filter]. now rewrite IH.
  - rewrite IH. destruct (q x) eqn:Qx; [|reflexivity].
    apply H in Qx. congruence.
Qed.

(** X17: a longer filter narrows the choice: if a filter starts with
    another, and neither is a regex, the versions it leaves are those it
    selects among the versions left by the other, in the same order. *)
Theorem longer_prefix_narrows {regex} (re_compile : string -> option regex)
    re_search names f1 f2 m1 :
  PyStr.startswith f1 "/" = false ->
  PyStr.startswith f2 "/" = false ->
  PyStr.startswith f2 f1 = true ->
  filter_versions regex re_compile re_search names f1 = Ok m1 ->
  filter_versions regex re_compile re_search names f2
  = Ok (filter (fun v => PyStr.startswith v f2) m1)
  /\ subseq (filter (fun v => PyStr.startswith v f2) m1) m1.
Proof.
  intros H1 H2 H12. unfold filter_versions.
  destruct (get_pyenv_versions names) as [versions|]; [|discriminate].
  cbn [rbind]. rewrite H1, H2, !yield_if_filter.
  intros [= <-]. split; [|apply subseq_filter].
  f_equal. symmetry. apply filter_filter_imp.
  intros v Hv. now apply (startswith_trans f1 f2).
Qed.

(** ** Where the located paths lie *)

Lemma startswith_app a b : PyStr.startswith (a ++ b) a = true.
Proof.
  induction a as [|c a IH]; [reflexivity|].
  cbn [append PyStr.startswith]. now rewrite Ascii.eqb_refl, IH.
Qed.

Lemma join_startswith top f :
  PyStr.startswith f "/" = false ->
  PyStr.startswith (OsPath.join top f) top = true.
Proof.
  intros Hf. unfold OsPath.join. rewrite Hf.
  destruct (negb (TextWrap.truthy top) || PyStr.endswith top "/");
    apply startswith_app.
Qed.

Lemma in_file_names f es :
  In f (file_names es) -> exists e, In e es /\ entry_name e = f.
Proof.
  unfold file_names. rewrite in_map_iff.
  intros (e & He & Hin). apply filter_In in Hin as [Hin _]. eauto.
Qed.

Lemma plain_names_child n es e :
  plain_names (Dir n es) = true -> In e es ->
  PyStr.startswith (entry_name e) "/" = false /\ plain_names e = true.
Proof.
  cbn [plain_names]. rewrite forallb_forall. intros H Hin.
  apply H in Hin. apply andb_prop in Hin as [Hs Hp].
  apply negb_true_iff in Hs. auto.
Qed.

Lemma walked_paths_below e :
  forall top p,
    plain_names e = true ->
    In p (walk_node requirements_body top e []) ->
    PyStr.startswith p top = true.
Proof.
  induction e as [n|n|n es IH] using entry_tree_ind; intros top p Hplain Hp;
    try contradiction.
  change (walk_node requirements_body top (Dir n es) [])
    with (locate_requirements top es) in Hp.
  rewrite locate_visits in Hp. apply in_app_or in Hp as [Hp|Hp].
  - apply in_own_requirements in Hp as (f & Hf & _ & ->).
    apply in_file_names in Hf as (e & He & <-).
    apply join_startswith. now apply (plain_names_child n es e).
  - apply in_flat_map in Hp as (d & _ & Hp).
    unfold visit_step in Hp.
    destruct (find_entry d es) as [e'|] eqn:Hfind; [|contradiction].
    unfold find_entry in Hfind. apply find_some in Hfind as [Hin Hname].
    apply String.eqb_eq in Hname. subst d.
    destruct (plain_names_child n es e' Hplain Hin) as [Hs Hpl].
    rewrite Forall_forall in IH.
    apply (startswith_trans top (OsPath.join top (entry_name e'))).
    + now apply (IH e' Hin).
    + now apply join_startswith.
Qed.

(** X18: where no entry of the tree has a name that starts with a slash,
    as in a file system, every path that the locator collects starts with
    the path of the working directory. *)
Theorem located_paths_are_below CWD es p :
  plain_names (Dir CWD es) = true ->
  In p (locate_requirements CWD es) ->
  PyStr.startswith p CWD = true.
Proof. intros Hplain Hp. now apply (walked_paths_below (Dir CWD es)). Qed.

(** ** Logging levels *)

Lemma getattr_setattr_same name a attrs :
  getattr name (setattr name a attrs) = Some a.
Proof.
  induction attrs as [|[k b] attrs IH]; cbn [setattr getattr].
  - now rewrite String.eqb_refl.
  - destruct (String.eqb k name) eqn:E; cbn [getattr]; now rewrite E.
Qed.

Lemma getattr_setattr_other name a attrs k :
  k <> name -> getattr k (setattr name a attrs) = getattr k attrs.
Proof.
  intros Hk. induction attrs as [|[k' b] attrs IH]; cbn [setattr getattr].
  - destruct (String.eqb_spec name k); [congruence | reflexivity].
  - destruct (String.eqb_spec k' name) as [->|Hne]; cbn [getattr].
    + destruct (String.eqb_spec name k); [congruence | reflexivity].
    + destruct (String.eqb k' k); [reflexivity | exact IH].
Qed.

Lemma hasattr_false_bound name attrs k a :
  hasattr name attrs = false -> getattr k attrs = Some a -> k <> name.
Proof.
  unfold hasattr. intros H Hk ->. now rewrite Hk in H.
Qed.

Lemma get_level_name_same level_num level_name names :
  get_level_name level_num (add_level_name level_num level_name names)
  = Some level_name.
Proof.
  induction names as [|[k n] names IH]; cbn [add_level_name get_level_name].
  - now rewrite Z.eqb_refl.
  - destruct (k =? level_num) eqn:E; cbn [get_level_name]; now rewrite E.
Qed.

Lemma get_level_name_other level_num level_name names k :
  k <> level_num ->
  get_level_name k (add_level_name level_num level_name names)
  = get_level_name k names.
Proof.
  intros Hk.
  induction names as [|[k' n] names IH]; cbn [add_level_name get_level_name].
  - destruct (Z.eqb_spec level_num k); [congruence | reflexivity].
  - destruct (Z.eqb_spec k' level_num) as [->|Hne]; cbn [get_level_name].
    + destruct (Z.eqb_spec level_num k); [congruence | reflexivity].
    + destruct (k' =? k); [reflexivity | exact IH].
Qed.

(** X19: [add_log_level] overwrites no attribute.  When it returns, every
    attribute that the module and the logger class had keeps its value; the
    method name, which is the one given or the lowered level name, is bound
    to the two logging functions of the level; and the level name is bound
    to the level number unless it is also the method name.  The table of
    level names is not guarded: the level number gets the level name
    whether it had a name or not, and the other numbers keep theirs.
    Adding a level of that name again raises [AttributeError]. *)
Theorem add_log_level_keeps_attributes level_name level_num method_name lg lg' :
  add_log_level level_name level_num method_name lg = inl lg' ->
  let m := method_name_of level_name method_name in
  (forall k a, getattr k (module_attrs lg) = Some a ->
               getattr k (module_attrs lg') = Some a)
  /\ (forall k a, getattr k (logger_attrs lg) = Some a ->
                  getattr k (logger_attrs lg') = Some a)
  /\ getattr m (module_attrs lg') = Some (ALogToRoot level_num)
  /\ getattr m (logger_attrs lg') = Some (ALogForLevel level_num)
  /\ (m <> level_name ->
      getattr level_name (module_attrs lg') = Some (ALevel level_num))
  /\ get_level_name level_num (level_to_name lg') = Some level_name
  /\ (forall k, k <> level_num ->
                get_level_name k (level_to_name lg')
                = get_level_name k (level_to_name lg))
  /\ (forall num' method', exists msg,
         add_log_level level_name num' method' lg' = inr (AttributeError msg)).
Proof.
  intros Hadd m. unfold add_log_level in Hadd. cbv zeta in Hadd.
  fold (method_name_of level_name method_name) in Hadd. fold m in Hadd.
  revert Hadd.
  destruct (hasattr level_name (module_attrs lg)) eqn:H1; [discriminate|].
  destruct (hasattr m (module_attrs lg)) eqn:H2; [discriminate|].
  destruct (hasattr m (logger_attrs lg)) eqn:H3; [discriminate|].
  intros [= <-]. cbn [module_attrs logger_attrs level_to_name].
  assert (Hname : hasattr level_name
                    (setattr m (ALogToRoot level_num)
                       (setattr level_name (ALevel level_num) (module_attrs lg)))
                  = true).
  { unfold hasattr. destruct (String.eqb_spec m level_name) as [->|Hne].
    - now rewrite getattr_setattr_same.
    - rewrite getattr_setattr_other by congruence.
      now rewrite getattr_setattr_same. }
  repeat match goal with |- _ /\ _ => split end.
  - intros k a Hk.
    rewrite !getattr_setattr_other; eauto using hasattr_false_bound.
  - intros k a Hk.
    rewrite getattr_setattr_other; eauto using hasattr_false_bound.
  - apply getattr_setattr_same.
  - apply getattr_setattr_same.
  - intros Hne. rewrite getattr_setattr_other by congruence.
    apply getattr_setattr_same.
  - apply get_level_name_same.
  - intros k Hk. now apply get_level_name_other.
  - intros num' method'. unfold add_log_level. cbn [module_attrs].
    rewrite Hname. eauto.
Qed.

Lemma log_level_high v : 5 <= v -> log_level v = STDOUT.
Proof.
  intros Hv. destruct v as [|p|p]; try lia.
  destruct p as [[[p|p|]|[p|p|]|]|[[p|p|]|[p|p|]|]|]; try lia; reflexivity.
Qed.

Lemma log_level_cases v :
  0 <= v ->
  (v = 0 /\ log_level v = WARN) \/ (v = 1 /\ log_level v = INFO)
  \/ (v = 2 /\ log_level v = DEBUG) \/ (v = 3 /\ log_level v = STDERR)
  \/ (4 <= v /\ log_level v = STDOUT).
Proof.
  intros Hv.
  assert (H : v = 0 \/ v = 1 \/ v = 2 \/ v = 3 \/ v = 4 \/ 5 <= v) by lia.
  destruct H as [->|[->|[->|[->|[->|H]]]]]; auto 10.
  - right. right. right. right. split; [lia | reflexivity].
  - right. right. right. right. split; [lia | now apply log_level_high].
Qed.

(** X20: more [-v] options never hide anything: the level that [main] sets
    does not rise with the count, so what is logged at one count is logged
    at every higher one; the captured standard error of the subprocesses is
    logged from three [-v] on and their captured standard output from four
    on. *)
Theorem verbosity_only_adds v v' :
  0 <= v <= v' ->
  log_level v' <= log_level v
  /\ (forall e, logged v e = true -> logged v' e = true)
  /\ (forall text, logged v (LogStderr text) = true <-> 3 <= v)
  /\ (forall text, logged v (LogStdout text) = true <-> 4 <= v).
Proof.
  intros [Hv Hvv'].
  assert (Hmono : log_level v' <= log_level v).
  { destruct (log_level_cases v Hv) as [[? ->]|[[? ->]|[[? ->]|[[? ->]|[? ->]]]]];
      destruct (log_level_cases v' ltac:(lia))
        as [[? ->]|[[? ->]|[[? ->]|[[? ->]|[? ->]]]]];
      unfold WARN, INFO, DEBUG, STDERR, STDOUT; lia. }
  split; [exact Hmono|]. split; [|split].
  - intros e. destruct e; cbn [logged]; try discriminate;
      unfold is_enabled_for; rewrite !Z.leb_le; lia.
  - intros text. cbn [logged]. unfold is_enabled_for. rewrite Z.leb_le.
    destruct (log_level_cases v Hv) as [[? ->]|[[? ->]|[[? ->]|[[? ->]|[? ->]]]]];
      unfold WARN, INFO, DEBUG, STDERR, STDOUT; lia.
  - intros text. cbn [logged]. unfold is_enabled_for. rewrite Z.leb_le.
    destruct (log_level_cases v Hv) as [[? ->]|[[? ->]|[[? ->]|[[? ->]|[? ->]]]]];
      unfold WARN, INFO, DEBUG, STDERR, STDOUT; lia.
Qed.

(** ** The further theorems at sample inputs *)


Lemma picker_selects_witness :
  PyStr.int (PyStr.strip " 2 ") = Some 2
  /\ exists s,
       picker ["3.10.2"; "3.9.1"] "Pick python version: " ". " (NInt 1) true
         (Sample.start [" 2 "; "1"])
       = (Ok (One "3.9.1"), mkWorld ["1"] 0%nat [Prompt s]).
Proof.
  split; [reflexivity|].
  apply (picker_selects ["3.10.2"; "3.9.1"] "Pick python version: " ". "
           (NInt 1) true " 2 " ["1"] 2 "3.9.1" (Sample.start [" 2 "; "1"])
           eq_refl eq_refl eq_refl);
    [lia | reflexivity].
Defined.

Lemma picker_returns_listed_witness :
  fst (picker ["3.10.2"; "3.9.1"] "Pick python version: " ". " (NInt 1) true
         (Sample.start ["x"; "2"]))
  = Ok (One "3.9.1")
  /\ In "3.9.1" ["3.10.2"; "3.9.1"].
Proof.
  split; [reflexivity|].
  exact (proj1
           (picker_returns_listed ["3.10.2"; "3.9.1"] "Pick python version: "
              ". " (NInt 1) true (Sample.start ["x"; "2"])
              (snd (picker ["3.10.2"; "3.9.1"] "Pick python version: " ". "
                      (NInt 1) true (Sample.start ["x"; "2"])))
              (One "3.9.1") eq_refl)).
Defined.

Lemma picker_selects_displayed_witness :
  PyStr.of_Z 2 = "2"
  /\ exists s,
       picker ["3.10.2"; "3.9.1"] "Pick python version: " ". " (NInt 1) false
         (Sample.start ["2"])
       = (Ok (One "3.9.1"), mkWorld [] 0%nat [Prompt s])
       /\ exists a b, s = a ++ NL ++ "  2. 3.9.1" ++ NL ++ b.
Proof.
  split; [reflexivity|].
  apply (picker_selects_displayed ["3.10.2"; "3.9.1"] "Pick python version: "
           ". " (NInt 1) false 2 "3.9.1" [] (Sample.start ["2"])
           eq_refl eq_refl);
    [lia | reflexivity].
Defined.

Lemma picker_list_is_single_witness :
  fst (picker ["3.10.2"; "3.9.1"] "Pick python version: " ". " (NStr "+") true
         (Sample.start ["2"]))
  = Ok (Many ["3.9.1"])
  /\ exists o, ["3.9.1"] = [o] /\ In o ["3.10.2"; "3.9.1"].
Proof.
  split; [reflexivity|].
  exact (proj2
           (picker_list_is_single ["3.10.2"; "3.9.1"] "Pick python version: "
              ". " (NStr "+") true (Sample.start ["2"])
              (snd (picker ["3.10.2"; "3.9.1"] "Pick python version: " ". "
                      (NStr "+") true (Sample.start ["2"])))
              ["3.9.1"] eq_refl)).
Defined.

Lemma later_steps_are_fatal_witness :
  (exists evs,
      create_environment SampleMore.run_local_failing Sample.pyenv Sample.pip_of
        "3.9.1" "env" (Some [Some "requirements.txt"]) (Sample.start [])
      = (Raise (CalledProcessError 1 [Sample.pyenv; "local"; "env"]),
         mkWorld [] 2%nat evs)
      /\ runs evs = [[Sample.pyenv; "virtualenv"; "3.9.1"; "env"];
                     [Sample.pyenv; "local"; "env"]])
  /\ (exists evs,
         create_environment SampleMore.run_upgrade_failing Sample.pyenv
           Sample.pip_of "3.9.1" "env" (Some [Some "requirements.txt"])
           (Sample.start [])
         = (Raise (CalledProcessError 1
                     [Sample.pip_of "env"; "install"; "-U"; "pip"]),
            mkWorld [] 3%nat evs)
         /\ runs evs = [[Sample.pyenv; "virtualenv"; "3.9.1"; "env"];
                        [Sample.pyenv; "local"; "env"];
                        [Sample.pip_of "env"; "install"; "-U"; "pip"]]).
Proof.
  split.
  - apply (proj1
             (later_steps_are_fatal SampleMore.run_local_failing Sample.pyenv
                Sample.pip_of "3.9.1" "env" (Some [Some "requirements.txt"])
                (Sample.start [])
                (mkCompleted 0 "done" "") 1%nat
                (mkCompleted 1 "" "pyenv: cannot write .python-version") 2%nat
                eq_refl eq_refl eq_refl)).
    cbn. lia.
  - apply (proj2
             (later_steps_are_fatal SampleMore.run_upgrade_failing Sample.pyenv
                Sample.pip_of "3.9.1" "env" (Some [Some "requirements.txt"])
                (Sample.start [])
                (mkCompleted 0 "done" "") 1%nat
                (mkCompleted 0 "done" "") 2%nat
                eq_refl eq_refl eq_refl)
             eq_refl (mkCompleted 1 "" "Could not fetch URL") 3%nat eq_refl).
    cbn. lia.
Defined.


Lemma resolved_version_is_installed_witness :
  fst (from_parsed Sample.literal_compile Sample.literal_search
         "/home/me/project" Sample.installed Sample.project
         (mkNamespace "3" false "env" None) (Sample.start []))
  = Ok (mkArguments "3.10.2" "env" None)
  /\ In "3.10.2" ["3.10.2"; "3.9.1"]
  /\ In "3.10.2" Sample.installed.
Proof.
  split; [reflexivity|].
  destruct (resolved_version_is_installed Sample.literal_compile
              Sample.literal_search "/home/me/project" Sample.installed
              Sample.project (mkNamespace "3" false "env" None)
              ["3.10.2"; "3.9.1"] (Sample.start []) (Sample.start [])
              (mkArguments "3.10.2" "env" None) eq_refl eq_refl)
    as (H1 & H2 & _).
  split; [exact H1 | exact H2].
Defined.

Lemma default_version_is_first_witness :
  filter_versions string Sample.literal_compile Sample.literal_search
    Sample.installed "3" = Ok ["3.10.2"; "3.9.1"]
  /\ forall u, In u ["3.10.2"; "3.9.1"] -> key_before u "3.10.2" = false.
Proof.
  split; [reflexivity|].
  exact (proj2
           (default_version_is_first Sample.literal_compile
              Sample.literal_search "/home/me/project" Sample.installed
              Sample.project (mkNamespace "3" false "env" None)
              ["3.10.2"; "3.9.1"] (Sample.start []) (Sample.start [])
              (mkArguments "3.10.2" "env" None) eq_refl eq_refl eq_refl)).
Defined.

Lemma empty_requirements_response_witness :
  exists s,
    pick_requirements "/home/me/project" Sample.project (Sample.start [""])
    = (Ok PNone, mkWorld [] 0%nat [Prompt s])
    /\ main Sample.run_flaky Sample.pyenv Sample.pip_of
         Sample.literal_compile Sample.literal_search "/home/me/project"
         Sample.installed Sample.project
         (mkNamespace "3.9" false "env" (Some [None])) (Sample.start [""])
       = (Raise TypeError, mkWorld [] 0%nat [Prompt s]).
Proof.
  apply (empty_requirements_response Sample.run_flaky Sample.pyenv
           Sample.pip_of Sample.literal_compile Sample.literal_search
           "/home/me/project" Sample.installed Sample.project
           (mkNamespace "3.9" false "env" (Some [None])) "3.9.1" [] "" []
           (Sample.start [""]) eq_refl eq_refl eq_refl);
    [vm_compute; discriminate | reflexivity | reflexivity].
Defined.


Lemma sorting_twice_changes_nothing_witness :
  get_pyenv_versions Sample.installed = Ok ["3.10.2"; "3.9.1"; "pypy3.9-7.3.9"]
  /\ get_pyenv_versions ["3.10.2"; "3.9.1"; "pypy3.9-7.3.9"]
     = Ok ["3.10.2"; "3.9.1"; "pypy3.9-7.3.9"].
Proof.
  split; [reflexivity|].
  exact (sorting_twice_changes_nothing Sample.installed
           ["3.10.2"; "3.9.1"; "pypy3.9-7.3.9"] eq_refl).
Defined.

Lemma equal_keys_keep_listing_order_witness :
  get_pyenv_versions SampleMore.listed
  = Ok ["3.10.2"; "3.9.1"; "3.09.1"; "2.7.18"]
  /\ filter (same_key "3.9.1") ["3.10.2"; "3.9.1"; "3.09.1"; "2.7.18"]
     = filter (same_key "3.9.1") SampleMore.listed.
Proof.
  split; [reflexivity|].
  exact (equal_keys_keep_listing_order SampleMore.listed
           ["3.10.2"; "3.9.1"; "3.09.1"; "2.7.18"] "3.9.1" eq_refl).
Defined.

Lemma named_versions_sorted_by_base_witness :
  get_pyenv_versions ["pypy3.9-7.3.9"; "anaconda3-5.0"; "3.9.1"; "jython2.7"]
  = Ok ["3.9.1"; "anaconda3-5.0"; "jython2.7"; "pypy3.9-7.3.9"]
  /\ PyStr.lt (base "pypy3.9-7.3.9") (base "anaconda3-5.0") = false.
Proof.
  split; [reflexivity|].
  apply (named_versions_sorted_by_base
           ["pypy3.9-7.3.9"; "anaconda3-5.0"; "3.9.1"; "jython2.7"]
           ["3.9.1"; "anaconda3-5.0"; "jython2.7"; "pypy3.9-7.3.9"]
           "anaconda3-5.0" "pypy3.9-7.3.9" eq_refl);
    [|reflexivity | reflexivity].
  exists ["3.9.1"], ["jython2.7"], []. reflexivity.
Defined.

Lemma numbered_versions_sorted_by_version_witness :
  get_pyenv_versions Sample.installed = Ok ["3.10.2"; "3.9.1"; "pypy3.9-7.3.9"]
  /\ ~ version_lt (3, 10, 2) (3, 9, 1).
Proof.
  split; [reflexivity|].
  apply (numbered_versions_sorted_by_version Sample.installed
           ["3.10.2"; "3.9.1"; "pypy3.9-7.3.9"] "3.10.2" "3.9.1"
           (3, 10, 2) (3, 9, 1) eq_refl);
    try reflexivity.
  exists [], [], ["pypy3.9-7.3.9"]. reflexivity.
Defined.

Lemma longer_prefix_narrows_witness :
  filter_versions string Sample.literal_compile Sample.literal_search
    Sample.installed "3" = Ok ["3.10.2"; "3.9.1"]
  /\ filter_versions string Sample.literal_compile Sample.literal_search
       Sample.installed "3.9"
     = Ok (filter (fun v => PyStr.startswith v "3.9") ["3.10.2"; "3.9.1"]).
Proof.
  split; [reflexivity|].
  exact (proj1
           (longer_prefix_narrows Sample.literal_compile Sample.literal_search
              Sample.installed "3" "3.9" ["3.10.2"; "3.9.1"]
              eq_refl eq_refl eq_refl eq_refl)).
Defined.

Lemma located_paths_are_below_witness :
  plain_names (Dir "/home/me/project" Sample.project) = true
  /\ PyStr.startswith "/home/me/project/docs/api/requirements.txt"
       "/home/me/project" = true.
Proof.
  split; [reflexivity|].
  apply (located_paths_are_below "/home/me/project" Sample.project
           "/home/me/project/docs/api/requirements.txt" eq_refl).
  vm_compute. tauto.
Defined.

Lemma add_log_level_keeps_attributes_witness :
  exists lg',
    add_log_level "TRACE" 10 None SampleMore.logging = inl lg'
    /\ getattr "DEBUG" (module_attrs lg') = Some (ALevel 10)
    /\ getattr "trace" (module_attrs lg') = Some (ALogToRoot 10)
    /\ get_level_name 10 (level_to_name SampleMore.logging) = Some "DEBUG"
    /\ get_level_name 10 (level_to_name lg') = Some "TRACE".
Proof.
  destruct (add_log_level "TRACE" 10 None SampleMore.logging)
    as [lg'|e] eqn:Hadd; [|discriminate Hadd].
  exists lg'. split; [reflexivity|].
  destruct (add_log_level_keeps_attributes "TRACE" 10 None
              SampleMore.logging lg' Hadd)
    as (Hmod & _ & Hmeth & _ & _ & Hnum & _).
  split; [apply Hmod; reflexivity|].
  split; [exact Hmeth|]. split; [reflexivity | exact Hnum].
Defined.

Lemma verbosity_only_adds_witness :
  log_level 3 <= log_level 1
  /\ (forall text, logged 1 (LogStderr text) = true <-> 3 <= 1).
Proof.
  destruct (verbosity_only_adds 1 3 ltac:(lia)) as (Hle & _ & Herr & _).
  split; [exact Hle | exact Herr].
Defined.
